(** * yt_vid_downloader/main.py: admission gate, URL validator, dispatch worker

    A shallow embedding of [main.py]: the pattern handed to [re.compile] in
    [download_video], the [asyncio.Semaphore] that bounds the downloads, the
    background coroutine [download_video_task] and the [POST /download]
    handler, followed by the properties the specification states about
    them. *)

From Stdlib Require Import List String Ascii Bool Arith ZArith Lia.
Import ListNotations.

Local Open Scope string_scope.
Local Open Scope list_scope.

(** ** Characters and text

    A Python [str] is a [string]; the matcher walks its characters as a
    [list ascii]. *)

Definition text := list ascii.

Definition chars (s : string) : text := list_ascii_of_string s.

Definition newline : ascii := "010"%char.
Definition dquote : ascii := "034"%char.
Definition backslash : ascii := "092"%char.

Definition in_range (lo hi c : ascii) : bool :=
  (nat_of_ascii lo <=? nat_of_ascii c)%nat && (nat_of_ascii c <=? nat_of_ascii hi)%nat.

(** ** Regular expressions

    The fragment of Python's [re] syntax that [main.py] uses: literals,
    character classes, [.], concatenation, [|], [?], [+], [*], [{n}]. The
    capture groups do not change whether a pattern matches and are
    dropped. *)
Module Re.

Inductive regex : Type :=
| Never
| Nil
| Class (p : ascii -> bool)
| Seq (a b : regex)
| Or (a b : regex)
| Many (a : regex).

Definition Chr (c : ascii) : regex := Class (Ascii.eqb c).

(** [.] without [re.DOTALL]: any character but the newline. *)
Definition not_newline (c : ascii) : bool := negb (Ascii.eqb c newline).
Definition Dot : regex := Class not_newline.

Definition Opt (a : regex) : regex := Or a Nil.
Definition Plus (a : regex) : regex := Seq a (Many a).

Fixpoint Lit (w : text) : regex :=
  match w with
  | [] => Nil
  | c :: w' => Seq (Chr c) (Lit w')
  end.

Fixpoint Repeat (n : nat) (a : regex) : regex :=
  match n with
  | O => Nil
  | S n' => Seq a (Repeat n' a)
  end.

(** The words of a pattern. *)
Inductive lang : regex -> text -> Prop :=
| lang_nil : lang Nil []
| lang_class p c : p c = true -> lang (Class p) [c]
| lang_seq a b u v : lang a u -> lang b v -> lang (Seq a b) (u ++ v)
| lang_or_l a b u : lang a u -> lang (Or a b) u
| lang_or_r a b u : lang b u -> lang (Or a b) u
| lang_many_nil a : lang (Many a) []
| lang_many_more a u v : lang a u -> lang (Many a) v -> lang (Many a) (u ++ v).

(** The matcher: Brzozowski derivatives, one per character read. *)
Fixpoint nullable (r : regex) : bool :=
  match r with
  | Never => false
  | Nil => true
  | Class _ => false
  | Seq a b => nullable a && nullable b
  | Or a b => nullable a || nullable b
  | Many _ => true
  end.

(** [Seq] and [Or] that drop a dead branch, so that derivatives stay small. *)
Definition seq (a b : regex) : regex :=
  match a with
  | Never => Never
  | _ => Seq a b
  end.

Definition or (a b : regex) : regex :=
  match a, b with
  | Never, _ => b
  | _, Never => a
  | _, _ => Or a b
  end.

Fixpoint deriv (c : ascii) (r : regex) : regex :=
  match r with
  | Never => Never
  | Nil => Never
  | Class p => if p c then Nil else Never
  | Seq a b =>
      if nullable a then or (seq (deriv c a) b) (deriv c b)
      else seq (deriv c a) b
  | Or a b => or (deriv c a) (deriv c b)
  | Many a => seq (deriv c a) (Many a)
  end.

Fixpoint accepts (r : regex) (s : text) : bool :=
  match s with
  | [] => nullable r
  | c :: s' => accepts (deriv c r) s'
  end.

(** [Pattern.match] of a pattern [body$]: the match starts at the first
    character, and [$] (without [re.MULTILINE]) holds at the end of the
    string and just before a newline that ends it. *)
Definition match_dollar (body : regex) (s : string) : bool :=
  accepts (Seq body (Opt (Chr newline))) (chars s).

End Re.

(** ** The URL validator of [download_video] *)

Import Re.

(** [[a-zA-Z0-9_-]] *)
Definition id_char (c : ascii) : bool :=
  in_range "a" "z" c || in_range "A" "Z" c || in_range "0" "9" c
  || Ascii.eqb c "_" || Ascii.eqb c "-".

(** [(https?://)?(www\.)?(youtube\.com|youtu\.be)/] *)
Definition host_part : regex :=
  Seq (Opt (Seq (Lit (chars "http")) (Seq (Opt (Chr "s")) (Lit (chars "://")))))
 (Seq (Opt (Lit (chars "www.")))
 (Seq (Or (Lit (chars "youtube.com")) (Lit (chars "youtu.be")))
      (Chr "/"))).

(** [(watch\?v=|embed/|v/|.+\?v=)?] *)
Definition marker_part : regex :=
  Opt (Or (Lit (chars "watch?v="))
      (Or (Lit (chars "embed/"))
      (Or (Lit (chars "v/"))
          (Seq (Plus Dot) (Lit (chars "?v=")))))).

(** The identifier group, eleven characters of the class, and the optional
    group of any characters that ends the pattern. *)
Definition id_part : regex := Repeat 11 (Class id_char).
Definition tail_part : regex := Opt (Many Dot).

Definition youtube_regex : regex :=
  Seq host_part (Seq marker_part (Seq id_part tail_part)).

(** [youtube_regex.match(youtube_url)], as a truth value. *)
Definition validate (youtube_url : string) : bool :=
  match_dollar youtube_regex youtube_url.

(** ** The identifier segment, in the specification's words

    Section 4.2 of the specification describes what a URL must look like
    without the pattern: an optional scheme, an optional [www.], one of the
    two hosts, and then eleven identifier characters in a recognized
    position. [has_id_segment] reads the string from the left in exactly
    these words; it is compared with [validate] below. The recognized
    positions are the ones the pattern gives: right after the host's slash,
    after [watch?v=], [embed/] or [v/], or after a [?v=] that follows at
    least one character on the same line. *)

(** [strip w s] takes the prefix [w] off [s]. *)
Fixpoint strip (w s : text) : option text :=
  match w, s with
  | [], _ => Some s
  | c :: w', d :: s' => if Ascii.eqb c d then strip w' s' else None
  | _ :: _, [] => None
  end.

Definition id_here (s : text) : bool :=
  (11 <=? List.length s)%nat && forallb id_char (firstn 11 s).

Definition id_after (marker s : text) : bool :=
  match strip marker s with
  | Some r => id_here r
  | None => false
  end.

Fixpoint id_after_query (s : text) : bool :=
  match s with
  | [] => false
  | c :: s' => not_newline c && (id_after (chars "?v=") s' || id_after_query s')
  end.

Definition after_scheme (s : text) : text :=
  match strip (chars "https://") s with
  | Some r => r
  | None => match strip (chars "http://") s with
            | Some r => r
            | None => s
            end
  end.

Definition after_www (s : text) : text :=
  match strip (chars "www.") s with
  | Some r => r
  | None => s
  end.

Definition after_host (s : text) : option text :=
  let s' := after_www (after_scheme s) in
  match strip (chars "youtube.com/") s' with
  | Some r => Some r
  | None => strip (chars "youtu.be/") s'
  end.

Definition has_id_segment (url : string) : bool :=
  match after_host (chars url) with
  | None => false
  | Some r =>
      id_here r
      || id_after (chars "watch?v=") r
      || id_after (chars "embed/") r
      || id_after (chars "v/") r
      || id_after_query r
  end.

(** ** Configuration *)

Definition DOWNLOAD_DIR : string := "downloads".
Definition MAX_CONCURRENT_DOWNLOADS : Z := 3.
Definition MAX_VIDEO_DURATION_SECONDS : Z := 3600.

(** ** [asyncio.Semaphore]

    After [asyncio/locks.py] of CPython 3.11: the counter [_value] and the
    queue [_waiters] of the futures of the coroutines suspended in
    [acquire]. A future is named by the coroutine that awaits it. No task
    is ever cancelled by [main.py], so a future is either pending or done. *)
Module Semaphore.

Record waiter : Type := { owner : nat; done : bool }.

Record t : Type := { _value : Z; _waiters : list waiter }.

Definition make (value : Z) : t := {| _value := value; _waiters := [] |}.

(** [locked]: the counter is zero, or some waiter is not cancelled. *)
Definition locked (s : t) : bool :=
  (_value s =? 0)%Z || existsb (fun _ => true) (_waiters s).

(** The first waiter that is not done gets the permit: the counter goes
    down on its behalf and its future is resolved. *)
Fixpoint wake_first (ws : list waiter) : option (list waiter) :=
  match ws with
  | [] => None
  | w :: ws' =>
      if done w then option_map (cons w) (wake_first ws')
      else Some ({| owner := owner w; done := true |} :: ws')
  end.

Definition _wake_up_next (s : t) : t :=
  match wake_first (_waiters s) with
  | Some ws => {| _value := _value s - 1; _waiters := ws |}
  | None => s
  end.

Definition release (s : t) : t :=
  _wake_up_next {| _value := _value s + 1; _waiters := _waiters s |}.

(** [acquire] up to its [await]: the caller either has the permit at once
    or is queued behind a new pending future. *)
Inductive entered : Type :=
| Got (s : t)
| Suspended (s : t).

Definition acquire_enter (me : nat) (s : t) : entered :=
  if locked s then
    Suspended {| _value := _value s;
                 _waiters := _waiters s ++ [{| owner := me; done := false |}] |}
  else Got {| _value := _value s - 1; _waiters := _waiters s |}.

Definition fut_done (me : nat) (s : t) : bool :=
  match find (fun w => (owner w =? me)%nat) (_waiters s) with
  | Some w => done w
  | None => false
  end.

Fixpoint remove_waiter (me : nat) (ws : list waiter) : list waiter :=
  match ws with
  | [] => []
  | w :: ws' => if (owner w =? me)%nat then ws' else w :: remove_waiter me ws'
  end.

(** [acquire] after its [await]: the future leaves the queue, and a permit
    that is still free goes to the next waiter. *)
Definition acquire_resume (me : nat) (s : t) : t :=
  let s' := {| _value := _value s; _waiters := remove_waiter me (_waiters s) |} in
  if (0 <? _value s')%Z then _wake_up_next s' else s'.

(** Waiters whose future is resolved and who have not run yet. *)
Definition woken (s : t) : nat := List.length (filter done (_waiters s)).

End Semaphore.

(** ** The media-fetch library, as far as the worker sees it *)

Inductive pyval : Type :=
| PyNone
| PyStr (s : string).

(** The two entries of [info_dict] that the worker reads; [None] is an
    absent key, and for the duration also the value [None]. *)
Record info_dict : Type := {
  title : option pyval;
  duration : option Z
}.

Record ydl_options : Type := {
  quiet : bool;
  skip_download : bool;
  cachedir : bool;
  outtmpl : option string;
  format : option string;
  noplaylist : bool;
  verbose : bool;
  logtostderr : bool;
  preferedformat : option string
}.

(** The classes of the exceptions the [except] clauses tell apart:
    [yt_dlp.utils.DownloadError], the other subclasses of [Exception], and
    the exceptions outside [Exception] ([KeyboardInterrupt], [SystemExit],
    [asyncio.CancelledError]). *)
Inductive exc_class : Type :=
| DownloadError
| OtherException
| NonException.

Record exn : Type := { exc_type : exc_class; exc_str : string }.

Definition result (A : Type) : Type := (A + exn)%type.

(** A [uuid.UUID], given by its [hex]: 32 hexadecimal digits. *)
Definition uuid : Type := string.

Definition hex (u : uuid) : string := u.

(** [str(u)[:8]]: the text form starts with the first eight digits. *)
Definition str_prefix8 (u : uuid) : string := substring 0 8 u.

(** ** Coroutines

    What a coroutine of [main.py] does to the world, as a tree: the two
    operations of the gate, a call of [YoutubeDL.extract_info] (the library
    answers with an [info_dict] or raises) and a draw of [uuid.uuid4()]. The
    [print] calls are left out. *)
Inductive prog (A : Type) : Type :=
| Ret (a : A)
| Acquire (k : prog A)
| Release (k : prog A)
| ExtractInfo (opts : ydl_options) (url : string) (download : bool)
    (k : result info_dict -> prog A)
| Uuid4 (k : uuid -> prog A).

Arguments Ret {A} a.
Arguments Acquire {A} k.
Arguments Release {A} k.
Arguments ExtractInfo {A} opts url download k.
Arguments Uuid4 {A} k.

Fixpoint bind {A B : Type} (p : prog A) (f : A -> prog B) : prog B :=
  match p with
  | Ret a => f a
  | Acquire k => Acquire (bind k f)
  | Release k => Release (bind k f)
  | ExtractInfo o u d k => ExtractInfo o u d (fun r => bind (k r) f)
  | Uuid4 k => Uuid4 (fun x => bind (k x) f)
  end.

(** Statements in sequence: an exception skips what follows. *)
Definition and_then {A B : Type} (p : prog (result A)) (f : A -> prog (result B))
  : prog (result B) :=
  bind p (fun r => match r with
                   | inl a => f a
                   | inr e => Ret (inr e)
                   end).

Definition return_ {A : Type} (a : A) : prog (result A) := Ret (inl a).
Definition raise {A : Type} (e : exn) : prog (result A) := Ret (inr e).

Notation "x <- p ;; q" := (and_then p (fun x => q))
  (at level 61, p at next level, right associativity).

(** [try: body except ...: handler]. *)
Definition try_except {A : Type} (body : prog (result A))
    (handler : exn -> prog (result A)) : prog (result A) :=
  bind body (fun r => match r with
                      | inl a => Ret (inl a)
                      | inr e => handler e
                      end).

(** [async with download_semaphore: body]: [__aenter__] awaits [acquire()],
    [__aexit__] calls [release()] however the body ends, and lets an
    exception of the body through. *)
Definition async_with_semaphore {A : Type} (body : prog (result A))
  : prog (result A) :=
  Acquire (bind body (fun r => Release (Ret r))).

(** [with yt_dlp.YoutubeDL(opts) as ydl: ydl.extract_info(url, download=d)] *)
Definition extract_info (opts : ydl_options) (url : string) (download : bool)
  : prog (result info_dict) :=
  ExtractInfo opts url download Ret.

Definition uuid4 : prog (result uuid) := Uuid4 (fun u => Ret (inl u)).

(** ** Text helpers of the worker *)

(** [re.sub(pattern, repl, s)] for a pattern that matches single
    characters: each character the pattern accepts becomes [repl]. *)
Fixpoint re_sub (pattern : regex) (repl : string) (s : string) : string :=
  match s with
  | EmptyString => EmptyString
  | String c s' =>
      (if accepts pattern [c] then repl else String c EmptyString)
        ++ re_sub pattern repl s'
  end.

(** The class of the pattern in [download_video_task]: the characters
    [<], [>], [:], the double quote, [/], the backslash, [|], [?] and the
    asterisk. *)
Definition unsafe_char (c : ascii) : bool :=
  Ascii.eqb c "<" || Ascii.eqb c ">" || Ascii.eqb c ":" || Ascii.eqb c dquote
  || Ascii.eqb c "/" || Ascii.eqb c backslash || Ascii.eqb c "|"
  || Ascii.eqb c "?" || Ascii.eqb c "*".

Definition unsafe_pattern : regex := Class unsafe_char.

Definition starts_with_sep (s : string) : bool :=
  match s with
  | String c _ => Ascii.eqb c "/"
  | EmptyString => false
  end.

Fixpoint ends_with_sep (s : string) : bool :=
  match s with
  | EmptyString => false
  | String c EmptyString => Ascii.eqb c "/"
  | String _ s' => ends_with_sep s'
  end.

(** [os.path.join(a, b)] of [posixpath]. *)
Definition path_join (a b : string) : string :=
  if starts_with_sep b then b
  else if (String.length a =? 0)%nat || ends_with_sep a then a ++ b
  else a ++ "/" ++ b.

(** [str(v)] inside an f-string. *)
Definition py_str (v : pyval) : string :=
  match v with
  | PyNone => "None"
  | PyStr s => s
  end.

(** [info_dict.get('title', default)] *)
Definition get_title (d : info_dict) (default : pyval) : pyval :=
  match title d with
  | Some v => v
  | None => default
  end.

(** [duration and duration > MAX_VIDEO_DURATION_SECONDS] *)
Definition exceeds_limit (d : option Z) : bool :=
  match d with
  | Some n => negb (n =? 0)%Z && (MAX_VIDEO_DURATION_SECONDS <? n)%Z
  | None => false
  end.

(** [re.sub] raises [TypeError] on a title that is not a string. *)
Definition sanitize (v : pyval) : prog (result string) :=
  match v with
  | PyStr s => return_ (re_sub unsafe_pattern "_" s)
  | PyNone => raise {| exc_type := OtherException;
                       exc_str := "expected string or bytes-like object" |}
  end.

(** ** The dispatch worker *)

(** The dictionaries [{"status": ..., "message": ...}] that the worker
    returns and the handler sends. *)
Record payload : Type := { status : string; message : string }.

Definition ydl_opts_info : ydl_options :=
  {| quiet := true; skip_download := true; cachedir := false;
     outtmpl := None; format := None; noplaylist := false;
     verbose := false; logtostderr := false; preferedformat := None |}.

Definition ydl_opts (template : string) : ydl_options :=
  {| quiet := false; skip_download := false; cachedir := false;
     outtmpl := Some template;
     format := Some "bestvideo[ext=mp4]+bestaudio[ext=m4a]/best[ext=mp4]/best";
     noplaylist := true; verbose := true; logtostderr := true;
     preferedformat := Some "mp4" |}.

Definition unique_filename (sanitized_title : string) (u : uuid) : string :=
  sanitized_title ++ "_" ++ hex u ++ ".%(ext)s".

(** The statements under [async with download_semaphore]. *)
Definition download_steps (youtube_url download_path request_id : string)
  : prog (result payload) :=
  info <- extract_info ydl_opts_info youtube_url false ;;
  if exceeds_limit (duration info) then
    return_ {| status := "error";
               message := "Video duration exceeds the allowed limit." |}
  else
    let video_title := get_title info (PyStr "video") in
    sanitized_title <- sanitize video_title ;;
    u <- uuid4 ;;
    let template := path_join download_path (unique_filename sanitized_title u) in
    info' <- extract_info (ydl_opts template) youtube_url true ;;
    return_ {| status := "success";
               message := "Successfully downloaded "
                          ++ py_str (get_title info' PyNone) |}.

(** The [async with] block inside the [try]. *)
Definition guarded_download (youtube_url download_path request_id : string)
  : prog (result payload) :=
  async_with_semaphore (download_steps youtube_url download_path request_id).

(** The [except] clauses, tried in order; [finally: pass] adds nothing. *)
Definition on_exception (e : exn) : prog (result payload) :=
  match exc_type e with
  | DownloadError =>
      return_ {| status := "error";
                 message := "Failed to download video: " ++ exc_str e |}
  | OtherException =>
      return_ {| status := "error";
                 message := "An unexpected error occurred during download. Please try again later." |}
  | NonException => raise e
  end.

Definition download_video_task (youtube_url download_path request_id : string)
  : prog (result payload) :=
  try_except (guarded_download youtube_url download_path request_id) on_exception.

(** ** One coroutine alone on the loop *)

(** What the library answers in one run, and the UUID the run draws. *)
Record collaborator : Type := {
  answer : ydl_options -> string -> bool -> result info_dict;
  drawn : uuid
}.

Inductive event : Type :=
| EvAcquire
| EvRelease
| EvExtractInfo (opts : ydl_options) (url : string) (download : bool)
| EvUuid4.

Definition emit {A : Type} (e : event) (r : option (A * Semaphore.t * list event))
  : option (A * Semaphore.t * list event) :=
  match r with
  | Some (a, s, tr) => Some (a, s, e :: tr)
  | None => None
  end.

(** [run p w s] runs [p] to its end from the gate state [s] and gives the
    value returned, the gate state and the events in order. A coroutine
    that has to wait in [acquire] with nobody else running never returns:
    [None]. *)
Fixpoint run {A : Type} (p : prog A) (w : collaborator) (s : Semaphore.t)
  : option (A * Semaphore.t * list event) :=
  match p with
  | Ret a => Some (a, s, [])
  | Acquire k =>
      match Semaphore.acquire_enter 0 s with
      | Semaphore.Got s' => emit EvAcquire (run k w s')
      | Semaphore.Suspended _ => None
      end
  | Release k => emit EvRelease (run k w (Semaphore.release s))
  | ExtractInfo o u d k => emit (EvExtractInfo o u d) (run (k (answer w o u d)) w s)
  | Uuid4 k => emit EvUuid4 (run (k (drawn w)) w s)
  end.

Definition is_acquire (e : event) : bool :=
  match e with EvAcquire => true | _ => false end.

Definition is_release (e : event) : bool :=
  match e with EvRelease => true | _ => false end.

Definition is_fetch (e : event) : bool :=
  match e with EvExtractInfo _ _ true => true | _ => false end.

Definition count (f : event -> bool) (tr : list event) : nat :=
  List.length (filter f tr).

(** The output templates handed to the downloading calls of a run. *)
Fixpoint templates (tr : list event) : list string :=
  match tr with
  | [] => []
  | EvExtractInfo o _ true :: tr' =>
      match outtmpl o with
      | Some t => t :: templates tr'
      | None => templates tr'
      end
  | _ :: tr' => templates tr'
  end.

(** ** The handler of [POST /download] *)

(** [request.client.host], when the request has a client. *)
Record Request : Type := { client : option string }.

(** What the handler hands to FastAPI: an [HTTPException] raised with a
    status code and a [detail], or a [JSONResponse] returned with a status
    code and a [content]. FastAPI sends the [detail] of an exception as the
    value of the key [detail] of the body, and the [content] of a response
    as the body. *)
Inductive response : Type :=
| HTTPException (status_code : nat) (detail : payload)
| JSONResponse (status_code : nat) (content : payload).

Definition HTTP_202_ACCEPTED : nat := 202.
Definition HTTP_400_BAD_REQUEST : nat := 400.
Definition HTTP_429_TOO_MANY_REQUESTS : nat := 429.

(** The arguments of a [download_video_task] added to [background_tasks]. *)
Definition task_args : Type := (string * string * string)%type.

Record handled : Type := {
  reply : response;
  background_tasks : list task_args;
  download_semaphore : Semaphore.t
}.

(** The body of [download_video], with the [BackgroundTasks] of the
    request, the UUID drawn for [request_id] and the module's
    [download_semaphore] passed in and handed back. (The parameter list in
    [main.py] puts the defaulted [youtube_url] before two parameters without
    a default, which Python refuses when it compiles the module; the
    embedding is of the function as it is meant to be called.) *)
Definition download_video (youtube_url : string) (tasks : list task_args)
    (request : Request) (u : uuid) (sem : Semaphore.t) : handled :=
  let request_id := str_prefix8 u in
  if negb (validate youtube_url) then
    {| reply := HTTPException HTTP_400_BAD_REQUEST
         {| status := "error";
            message := "Invalid YouTube URL provided. Please enter a valid YouTube link (e.g., https://www.youtube.com/watch?v=example or https://youtu.be/example)." |};
       background_tasks := tasks;
       download_semaphore := sem |}
  else if Semaphore.locked sem then
    {| reply := HTTPException HTTP_429_TOO_MANY_REQUESTS
         {| status := "error";
            message := "Server is currently busy with other downloads. Please try again shortly." |};
       background_tasks := tasks;
       download_semaphore := sem |}
  else
    {| reply := JSONResponse HTTP_202_ACCEPTED
         {| status := "processing";
            message := "Download initiated for " ++ youtube_url
                       ++ ". This process runs in the background." |};
       background_tasks := tasks ++ [(youtube_url, DOWNLOAD_DIR, request_id)];
       download_semaphore := sem |}.

Definition code_of (r : response) : nat :=
  match r with
  | HTTPException c _ => c
  | JSONResponse c _ => c
  end.

(** ** The running application

    The gate and the background coroutines. A coroutine is the rest of its
    program; [awaiting] says that it is suspended on its future in
    [acquire], and [holds] records that it has acquired and not yet
    released; [acquired] and [released] count its acquisitions and its
    releases so far. Every operation of a coroutine is a step of its own, so any
    interleaving of the coroutines is a run of the system; the event loop
    of [main.py] runs a subset of them. *)
Record worker : Type := {
  code : prog (result payload);
  awaiting : bool;
  holds : bool;
  acquired : nat;
  released : nat;
  lib : collaborator
}.

Record system : Type := { gate : Semaphore.t; workers : list worker }.

Definition boot (K : Z) : system :=
  {| gate := Semaphore.make K; workers := [] |}.

Definition spawn (l : collaborator) (a : task_args) : worker :=
  let '(youtube_url, download_path, request_id) := a in
  {| code := download_video_task youtube_url download_path request_id;
     awaiting := false; holds := false; acquired := 0; released := 0;
     lib := l |}.

Fixpoint set_nth {A : Type} (i : nat) (x : A) (l : list A) : list A :=
  match l, i with
  | [], _ => []
  | _ :: l', O => x :: l'
  | y :: l', S i' => y :: set_nth i' x l'
  end.

Definition step_worker (i : nat) (w : worker) (g : Semaphore.t)
  : option (worker * Semaphore.t) :=
  match code w with
  | Ret _ => None
  | Acquire k =>
      if awaiting w then
        if Semaphore.fut_done i g then
          Some ({| code := k; awaiting := false; holds := true;
                   acquired := S (acquired w); released := released w;
                   lib := lib w |},
                Semaphore.acquire_resume i g)
        else None
      else
        match Semaphore.acquire_enter i g with
        | Semaphore.Got g' =>
            Some ({| code := k; awaiting := false; holds := true;
                     acquired := S (acquired w); released := released w;
                     lib := lib w |}, g')
        | Semaphore.Suspended g' =>
            Some ({| code := code w; awaiting := true; holds := false;
                     acquired := acquired w; released := released w;
                     lib := lib w |}, g')
        end
  | Release k =>
      Some ({| code := k; awaiting := false; holds := false;
               acquired := acquired w; released := S (released w);
               lib := lib w |},
            Semaphore.release g)
  | ExtractInfo o u d k =>
      Some ({| code := k (answer (lib w) o u d); awaiting := awaiting w;
               holds := holds w; acquired := acquired w;
               released := released w; lib := lib w |}, g)
  | Uuid4 k =>
      Some ({| code := k (drawn (lib w)); awaiting := awaiting w;
               holds := holds w; acquired := acquired w;
               released := released w; lib := lib w |}, g)
  end.

(** A request arrives and is handled, or coroutine [i] takes its next step. *)
Inductive action : Type :=
| Post (youtube_url : string) (request : Request) (u : uuid) (l : collaborator)
| Step (i : nat).

Definition act (a : action) (st : system) : option system :=
  match a with
  | Post youtube_url request u l =>
      let h := download_video youtube_url [] request u (gate st) in
      Some {| gate := download_semaphore h;
              workers := workers st ++ map (spawn l) (background_tasks h) |}
  | Step i =>
      match nth_error (workers st) i with
      | None => None
      | Some w =>
          match step_worker i w (gate st) with
          | None => None
          | Some (w', g') => Some {| gate := g'; workers := set_nth i w' (workers st) |}
          end
      end
  end.

Inductive reachable (K : Z) : system -> Prop :=
| reach_boot : reachable K (boot K)
| reach_act st a st' : reachable K st -> act a st = Some st' -> reachable K st'.

Fixpoint play (acts : list action) (st : system) : option system :=
  match acts with
  | [] => Some st
  | a :: acts' =>
      match act a st with
      | Some st' => play acts' st'
      | None => None
      end
  end.

Definition in_fetch (w : worker) : bool :=
  match code w with
  | ExtractInfo _ _ true _ => true
  | _ => false
  end.

Definition holders (st : system) : nat := List.length (filter holds (workers st)).
Definition fetching (st : system) : nat := List.length (filter in_fetch (workers st)).

(** The shapes of a coroutine's code around the gate: [critical] code has
    no gate operation ahead but one [Release], right before it returns;
    [bracketed] code has returned or is about to acquire and then be
    critical. *)
Inductive critical {A : Type} : prog A -> Prop :=
| critical_release a : critical (Release (Ret a))
| critical_extract o u d k :
    (forall r, critical (k r)) -> critical (ExtractInfo o u d k)
| critical_uuid k : (forall x, critical (k x)) -> critical (Uuid4 k).

Inductive bracketed {A : Type} : prog A -> Prop :=
| bracketed_ret a : bracketed (Ret a)
| bracketed_acquire k : critical k -> bracketed (Acquire k).

(** Code that does not touch the gate. *)
Inductive gate_free {A : Type} : prog A -> Prop :=
| gate_free_ret a : gate_free (Ret a)
| gate_free_extract o u d k :
    (forall r, gate_free (k r)) -> gate_free (ExtractInfo o u d k)
| gate_free_uuid k : (forall x, gate_free (k x)) -> gate_free (Uuid4 k).

(** ** Sample collaborators *)

Definition sample_info : info_dict :=
  {| title := Some (PyStr "Me at the zoo: <part 1/2>"); duration := Some 19%Z |}.

Definition long_info : info_dict :=
  {| title := Some (PyStr "Ten hours of rain"); duration := Some 4000%Z |}.

(** Probe and download both succeed. *)
Definition lib_ok (u : uuid) : collaborator :=
  {| answer := fun _ _ _ => inl sample_info; drawn := u |}.

(** The probe reports 4000 seconds. *)
Definition lib_long (u : uuid) : collaborator :=
  {| answer := fun _ _ _ => inl long_info; drawn := u |}.

(** The probe succeeds and the download raises [e]. *)
Definition lib_failing_fetch (e : exn) (u : uuid) : collaborator :=
  {| answer := fun _ _ download => if download then inr e else inl sample_info;
     drawn := u |}.

(** The probe raises [e]. *)
Definition lib_failing_probe (e : exn) (u : uuid) : collaborator :=
  {| answer := fun _ _ _ => inr e; drawn := u |}.

Definition sample_url : string := "https://youtu.be/dQw4w9WgXcQ".

(** An event that is not an operation of the gate. *)
Definition quiet_event (e : event) : bool :=
  negb (is_acquire e) && negb (is_release e).

(** The output template the worker derives from a title [t] that is a
    string and the draw [u]. *)
Definition template_of (download_path t : string) (u : uuid) : string :=
  path_join download_path (unique_filename (re_sub unsafe_pattern "_" t) u).

(** The nine characters of the pattern's class, one by one. *)
Definition unsafe_chars : list ascii :=
  ["<"; ">"; ":"; dquote; "/"; backslash; "|"; "?"; "*"]%char.

(** The permits of the gate that no coroutine holds: the counter, and one
    for each waiter that was woken and has not run yet. *)
Definition permits (s : Semaphore.t) : Z :=
  (Semaphore._value s + Z.of_nat (Semaphore.woken s))%Z.

(** A coroutine's code agrees with its record of holding a slot and with
    its counts: nothing before the acquisition, one acquisition while it
    holds, one of each once it has returned. *)
Definition worker_ok (w : worker) : Prop :=
  if holds w then
    critical (code w) /\ awaiting w = false
    /\ acquired w = 1 /\ released w = 0
  else
    bracketed (code w)
    /\ match code w with
       | Ret _ => acquired w = 1 /\ released w = 1
       | _ => acquired w = 0 /\ released w = 0
       end.

Definition invariant (K : Z) (st : system) : Prop :=
  (0 <= Semaphore._value (gate st))%Z
  /\ (permits (gate st) + Z.of_nat (holders st) = K)%Z
  /\ Forall worker_ok (workers st).

(** Five requests are accepted before any coroutine runs; the first three
    coroutines acquire and go on to their download, the other two queue. *)
Definition rush : list action :=
  let rq := {| client := Some "127.0.0.1" |} in
  let l := lib_ok "0123456789abcdef0123456789abcdef" in
  [Post sample_url rq "1a2b3c4d5e6f47a8b9c0d1e2f3a4b5c6" l;
   Post sample_url rq "2a2b3c4d5e6f47a8b9c0d1e2f3a4b5c6" l;
   Post sample_url rq "3a2b3c4d5e6f47a8b9c0d1e2f3a4b5c6" l;
   Post sample_url rq "4a2b3c4d5e6f47a8b9c0d1e2f3a4b5c6" l;
   Post sample_url rq "5a2b3c4d5e6f47a8b9c0d1e2f3a4b5c6" l;
   Step 0; Step 1; Step 2; Step 3; Step 4;
   Step 0; Step 0; Step 1; Step 1; Step 2; Step 2].

Definition b2n (b : bool) : nat := if b then 1 else 0.

(** After the rush, the first coroutine runs to its end and hands its
    permit to the fourth, which resumes and runs to its end as well. *)
Definition relay : list action :=
  rush ++ [Step 0; Step 0; Step 3; Step 3; Step 3; Step 3; Step 3].

(** ** The validator's language, spelled out

    The twelve ways the pattern's first three groups and the slash can
    read, and the four fixed forms of its fourth group. *)
Definition host_prefixes : list string :=
  ["youtube.com/"; "youtu.be/";
   "www.youtube.com/"; "www.youtu.be/";
   "http://youtube.com/"; "http://youtu.be/";
   "http://www.youtube.com/"; "http://www.youtu.be/";
   "https://youtube.com/"; "https://youtu.be/";
   "https://www.youtube.com/"; "https://www.youtu.be/"].

Definition fixed_markers : list string := [""; "watch?v="; "embed/"; "v/"].

Definition single_line (s : string) : bool := forallb not_newline (chars s).

Definition line_feed : string := String newline EmptyString.

(** ** The check of the page's script

    [youtubeRegex.test(youtubeUrl)] in the submit handler of [HTML_FORM];
    the [pattern] attribute of the input holds the same pattern. In
    JavaScript, without flags, [^] and [$] are the two ends of the input and
    [.] is any character but a line terminator: of the characters modelled
    here, the line feed and the carriage return. The two other line
    terminators, U+2028 and U+2029, are not among the characters of a
    [string], so nothing is said here about inputs that contain them. *)
Definition carriage_return : ascii := "013"%char.

Definition js_dot (c : ascii) : bool :=
  negb (Ascii.eqb c newline) && negb (Ascii.eqb c carriage_return).

Definition youtubeRegex : regex := Seq host_part (Plus (Class js_dot)).

Definition youtubeRegex_test (youtubeUrl : string) : bool :=
  accepts youtubeRegex (chars youtubeUrl).

(** A string from its characters. *)
Definition unchars : text -> string := string_of_list_ascii.

(** ** Reading a run of the worker *)

Definition is_probe (e : event) : bool :=
  match e with EvExtractInfo _ _ false => true | _ => false end.

(** What the [except] clauses make of the way the guarded block ended. *)
Definition settled (r : result payload) : result payload :=
  match r with
  | inl a => inl a
  | inr e =>
      match exc_type e with
      | DownloadError =>
          inl {| status := "error";
                 message := "Failed to download video: " ++ exc_str e |}
      | OtherException =>
          inl {| status := "error";
                 message := "An unexpected error occurred during download. Please try again later." |}
      | NonException => inr e
      end
  end.

(** The two shapes of a run: the probe alone, or the probe, the draw and
    the download with the template [t]. *)
Definition short_run (youtube_url : string) : list event :=
  [EvAcquire; EvExtractInfo ydl_opts_info youtube_url false; EvRelease].

Definition long_run (youtube_url t : string) : list event :=
  [EvAcquire; EvExtractInfo ydl_opts_info youtube_url false; EvUuid4;
   EvExtractInfo (ydl_opts t) youtube_url true; EvRelease].

(** The digits of [uuid.UUID.hex]. *)
Definition is_hex_digit (c : ascii) : bool :=
  in_range "0" "9" c || in_range "a" "f" c.

(** The probe fails with a [DownloadError]. *)
Definition unavailable : exn :=
  {| exc_type := DownloadError; exc_str := "ERROR: Video unavailable" |}.

(** The probe reports no title and no duration. *)
Definition bare_info : info_dict := {| title := None; duration := None |}.

(** The probe reports a title that is [None]. *)
Definition untitled_info : info_dict :=
  {| title := Some PyNone; duration := Some 19%Z |}.

Definition lib_with (info : info_dict) (u : uuid) : collaborator :=
  {| answer := fun _ _ _ => inl info; drawn := u |}.

(** ** The queue of the gate and the coroutines *)

Definition returned (w : worker) : bool :=
  match code w with Ret _ => true | _ => false end.

(** Inside a call of the library, probe or download. *)
Definition in_library (w : worker) : bool :=
  match code w with ExtractInfo _ _ _ _ => true | _ => false end.

Definition calling (st : system) : nat :=
  List.length (filter in_library (workers st)).

Definition owners (s : Semaphore.t) : list nat :=
  map Semaphore.owner (Semaphore._waiters s).

Definition pending (q : Semaphore.waiter) : bool := negb (Semaphore.done q).

Definition is_awaiting (ws : list worker) (j : nat) : Prop :=
  exists w, nth_error ws j = Some w /\ awaiting w = true.

(** The futures in the queue are those of the suspended coroutines, one
    each; a suspended coroutine is inside [acquire]; and a free permit with
    a pending future in the queue means that a woken coroutine is about to
    pass it on. *)
Definition queue_ok (st : system) : Prop :=
  NoDup (owners (gate st))
  /\ (forall j, In j (owners (gate st)) <-> is_awaiting (workers st) j)
  /\ Forall (fun w => awaiting w = true -> exists k, code w = Acquire k)
            (workers st)
  /\ ((0 < Semaphore._value (gate st))%Z ->
      existsb pending (Semaphore._waiters (gate st)) = true ->
      existsb Semaphore.done (Semaphore._waiters (gate st)) = true).

(** Two requests are accepted and no coroutine has run yet. *)
Definition two_posts : list action :=
  let rq := {| client := None |} in
  [Post sample_url rq "1a2b3c4d5e6f47a8b9c0d1e2f3a4b5c6"
        (lib_ok "0123456789abcdef0123456789abcdef");
   Post sample_url rq "2a2b3c4d5e6f47a8b9c0d1e2f3a4b5c6"
        (lib_failing_fetch unavailable "fedcba9876543210fedcba9876543210")].

(** ** The script of the page

    The submit handler of [HTML_FORM] and [showMessage]. A character is a
    code point below 256, so the white space that [trim] takes off is tab,
    line feed, vertical tab, form feed, carriage return, space and the
    no-break space. *)
Definition is_js_space (c : ascii) : bool :=
  existsb (Ascii.eqb c) ["009"; "010"; "011"; "012"; "013"; " "; "160"]%char.

Fixpoint trim_start (s : string) : string :=
  match s with
  | EmptyString => EmptyString
  | String c s' => if is_js_space c then trim_start s' else s
  end.

Fixpoint trim_end (s : string) : string :=
  match s with
  | EmptyString => EmptyString
  | String c s' =>
      match trim_end s' with
      | EmptyString => if is_js_space c then EmptyString else String c EmptyString
      | t => String c t
      end
  end.

Definition trim (s : string) : string := trim_end (trim_start s).

(** The flag of the script, the two controls it disables, and the text and
    the type last given to [showMessage]. *)
Record page : Type := {
  downloadInitiated : bool;
  input_disabled : bool;
  button_disabled : bool;
  messageBox : option (string * string)
}.

Definition fresh_page : page :=
  {| downloadInitiated := false; input_disabled := false;
     button_disabled := false; messageBox := None |}.

Definition showMessage (text type : string) (p : page) : page :=
  {| downloadInitiated := downloadInitiated p;
     input_disabled := input_disabled p;
     button_disabled := button_disabled p;
     messageBox := Some (text, type) |}.

(** How the [fetch] of the handler ends: with a response whose body is
    JSON ([response.ok], and [data.message] when the body has a string
    there), or with a rejection of [fetch] or of [response.json()]. *)
Inductive fetched : Type :=
| Replied (ok : bool) (data_message : option string)
| Rejected.

(** The handler up to its [await]: the page after it, and the value of
    [youtube_url] that is posted, if any. *)
Definition on_submit (value : string) (p : page) : page * option string :=
  if downloadInitiated p then
    (showMessage "A download is already in progress. Please wait." "info" p, None)
  else
    let youtubeUrl := trim value in
    if (String.length youtubeUrl =? 0)%nat then
      (showMessage "Please enter a YouTube video URL." "error" p, None)
    else if negb (youtubeRegex_test youtubeUrl) then
      (showMessage "Please enter a valid YouTube URL (e.g., https://www.youtube.com/watch?v=dQw4w9WgXcQ or https://youtu.be/dQw4w9WgXcQ)." "error" p,
       None)
    else
      ({| downloadInitiated := true; input_disabled := true;
          button_disabled := true;
          messageBox := Some ("Starting download... This may take a moment. Please do not close this page.", "info") |},
       Some youtubeUrl).

(** [data.message || "Something went wrong."] *)
Definition message_or_default (m : option string) : string :=
  match m with
  | Some (String c s) => String c s
  | _ => "Something went wrong."
  end.

(** The text [textContent] takes from [data.message]. *)
Definition text_of (m : option string) : string :=
  match m with
  | Some s => s
  | None => EmptyString
  end.

(** The handler after its [await]s: [try], [catch] and [finally]. *)
Definition on_settled (r : fetched) (p : page) : page :=
  let shown :=
    match r with
    | Replied true m => (text_of m, "success")
    | Replied false m => (("Error: " ++ message_or_default m)%string, "error")
    | Rejected => ("Network error. Please try again later.", "error")
    end in
  {| downloadInitiated := false; input_disabled := false;
     button_disabled := false; messageBox := Some shown |}.

(** The page in its browser: the page and the number of its requests that
    have not ended yet. *)
Record browser : Type := { doc : page; in_flight : nat }.

Inductive page_event : Type :=
| Submit (value : string)
| Settle (r : fetched).

Definition page_step (e : page_event) (b : browser) : option browser :=
  match e with
  | Submit value =>
      let '(p, posted) := on_submit value (doc b) in
      Some {| doc := p;
              in_flight := match posted with
                           | Some _ => S (in_flight b)
                           | None => in_flight b
                           end |}
  | Settle r =>
      match in_flight b with
      | O => None
      | S n => Some {| doc := on_settled r (doc b); in_flight := n |}
      end
  end.

Inductive page_reachable : browser -> Prop :=
| page_fresh : page_reachable {| doc := fresh_page; in_flight := 0 |}
| page_next b e b' :
    page_reachable b -> page_step e b = Some b' -> page_reachable b'.

Fixpoint page_play (es : list page_event) (b : browser) : option browser :=
  match es with
  | [] => Some b
  | e :: es' =>
      match page_step e b with
      | Some b' => page_play es' b'
      | None => None
      end
  end.

(** What the page gets from the handler of [POST /download]: FastAPI sends
    the content of a [JSONResponse] as the body, and the detail of an
    [HTTPException] as the value of the key [detail] of the body, which
    then has no [message] of its own; [response.ok] is a status from 200 to
    299. *)
Definition response_ok (c : nat) : bool := (200 <=? c)%nat && (c <=? 299)%nat.

Definition as_fetched (r : response) : fetched :=
  match r with
  | JSONResponse c content => Replied (response_ok c) (Some (message content))
  | HTTPException c _ => Replied (response_ok c) None
  end.

(** The flag says whether a request is in flight, and the controls are
    disabled exactly then. *)
Definition page_ok (b : browser) : Prop :=
  in_flight b = (if downloadInitiated (doc b) then 1 else 0)
  /\ input_disabled (doc b) = downloadInitiated (doc b)
  /\ button_disabled (doc b) = downloadInitiated (doc b).

(** ** What goes over the wire

    The JSON bodies FastAPI sends for what the handler hands to it: the
    content of a [JSONResponse] as it is, and for an [HTTPException] an
    object whose only key is [detail] (FastAPI's default exception
    handler). *)
Inductive json : Type :=
| JString (s : string)
| JObject (fields : members)
with members : Type :=
| no_member
| member (key : string) (value : json) (rest : members).

Fixpoint lookup (k : string) (fields : members) : option json :=
  match fields with
  | no_member => None
  | member k' v rest => if String.eqb k k' then Some v else lookup k rest
  end.

Definition get_field (k : string) (j : json) : option json :=
  match j with
  | JObject fields => lookup k fields
  | JString _ => None
  end.

Definition payload_json (p : payload) : json :=
  JObject (member "message" (JString (message p))
          (member "status" (JString (status p)) no_member)).

(** The status code and the body of the response the client receives. *)
Definition sent (r : response) : nat * json :=
  match r with
  | JSONResponse c content => (c, payload_json content)
  | HTTPException c d => (c, JObject (member "detail" (payload_json d) no_member))
  end.

(** * Properties *)

(** ** The matcher computes the language *)
Module ReFacts.

Lemma lang_never s : ~ lang Never s.
Proof. intros H; inversion H. Qed.

Lemma lang_seq_inv a b s :
  lang (Seq a b) s -> exists u v, s = u ++ v /\ lang a u /\ lang b v.
Proof. intros H; inversion H; subst; eauto. Qed.

Lemma lang_or_inv a b s : lang (Or a b) s -> lang a s \/ lang b s.
Proof. intros H; inversion H; subst; auto. Qed.

Lemma lang_nil_inv s : lang Nil s -> s = [].
Proof. intros H; inversion H; reflexivity. Qed.

Lemma lang_class_inv p s : lang (Class p) s -> exists c, s = [c] /\ p c = true.
Proof. intros H; inversion H; subst; eauto. Qed.

Lemma lang_smart_seq a b s : lang (seq a b) s <-> lang (Seq a b) s.
Proof.
  destruct a; simpl; try tauto.
  split; intros H.
  - elim (lang_never _ H).
  - apply lang_seq_inv in H as (u & v & _ & Hu & _). elim (lang_never _ Hu).
Qed.

Lemma lang_smart_or a b s : lang (or a b) s <-> lang (Or a b) s.
Proof.
  split.
  - destruct a, b; simpl; intros H;
      solve [ assumption | apply lang_or_l; assumption
            | apply lang_or_r; assumption ].
  - intros H. apply lang_or_inv in H as [H | H];
      destruct a, b; simpl;
      solve [ assumption | elim (lang_never _ H)
            | apply lang_or_l; assumption | apply lang_or_r; assumption ].
Qed.

Lemma nullable_sound r : nullable r = true -> lang r [].
Proof.
  induction r; simpl; intros H; try discriminate.
  - constructor.
  - apply andb_true_iff in H as [H1 H2].
    apply (lang_seq r1 r2 [] []); auto.
  - apply orb_true_iff in H as [H | H];
      [apply lang_or_l | apply lang_or_r]; auto.
  - constructor.
Qed.

Lemma nullable_complete r s : lang r s -> s = [] -> nullable r = true.
Proof.
  induction 1; simpl; intros E; try reflexivity; try discriminate.
  - apply app_eq_nil in E as [-> ->]. rewrite IHlang1, IHlang2; auto.
  - rewrite IHlang; auto.
  - rewrite IHlang; auto using orb_true_r.
Qed.

Lemma deriv_sound c r : forall s, lang (deriv c r) s -> lang r (c :: s).
Proof.
  induction r; simpl; intros s H.
  - elim (lang_never _ H).
  - elim (lang_never _ H).
  - destruct (p c) eqn:E.
    + apply lang_nil_inv in H as ->. constructor; assumption.
    + elim (lang_never _ H).
  - assert (step : forall t, lang (seq (deriv c r1) r2) t -> lang (Seq r1 r2) (c :: t)).
    { intros t Ht. apply lang_smart_seq, lang_seq_inv in Ht as (u & v & -> & Hu & Hv).
      change (c :: u ++ v) with ((c :: u) ++ v). constructor; auto. }
    destruct (nullable r1) eqn:N; [| auto].
    apply lang_smart_or, lang_or_inv in H as [H | H]; [auto |].
    apply (lang_seq r1 r2 [] (c :: s)); [apply nullable_sound; assumption | auto].
  - apply lang_smart_or, lang_or_inv in H as [H | H];
      [apply lang_or_l | apply lang_or_r]; auto.
  - apply lang_smart_seq, lang_seq_inv in H as (u & v & -> & Hu & Hv).
    change (c :: u ++ v) with ((c :: u) ++ v). constructor; auto.
Qed.

Lemma deriv_complete c r w :
  lang r w -> forall s, w = c :: s -> lang (deriv c r) s.
Proof.
  induction 1; intros s E; simpl.
  - discriminate.
  - injection E as -> <-. rewrite H. constructor.
  - destruct u as [| d u'].
    + simpl in E. subst v.
      rewrite (nullable_complete _ _ H eq_refl).
      apply lang_smart_or, lang_or_r. auto.
    + injection E as -> <-.
      assert (lang (seq (deriv c a) b) (u' ++ v)).
      { apply lang_smart_seq. constructor; auto. }
      destruct (nullable a); [apply lang_smart_or, lang_or_l |]; assumption.
  - apply lang_smart_or, lang_or_l; auto.
  - apply lang_smart_or, lang_or_r; auto.
  - discriminate.
  - destruct u as [| d u'].
    + simpl in E. apply IHlang2 in E. exact E.
    + injection E as -> <-. apply lang_smart_seq. constructor; auto.
Qed.

Theorem accepts_lang r s : accepts r s = true <-> lang r s.
Proof.
  revert r; induction s as [| c s IH]; intros r; simpl.
  - split; [apply nullable_sound | intros H; eapply nullable_complete; eauto].
  - rewrite IH. split; [apply deriv_sound |].
    intros H; eapply deriv_complete; eauto.
Qed.

(** Derived forms. *)
Lemma lang_chr c s : lang (Chr c) s <-> s = [c].
Proof.
  unfold Chr. split.
  - intros H. apply lang_class_inv in H as (d & -> & Hd).
    apply Ascii.eqb_eq in Hd as ->. reflexivity.
  - intros ->. constructor. apply Ascii.eqb_refl.
Qed.

Lemma lang_lit w s : lang (Lit w) s <-> s = w.
Proof.
  revert s; induction w as [| c w IH]; intros s; simpl.
  - split; [apply lang_nil_inv | intros ->; constructor].
  - split.
    + intros H. apply lang_seq_inv in H as (u & v & -> & Hu & Hv).
      apply lang_class_inv in Hu as (d & -> & Hd).
      apply Ascii.eqb_eq in Hd as <-. apply IH in Hv as ->. reflexivity.
    + intros ->. change (c :: w) with ([c] ++ w).
      constructor; [constructor; apply Ascii.eqb_refl | apply IH; reflexivity].
Qed.

Lemma lang_opt a s : lang (Opt a) s <-> lang a s \/ s = [].
Proof.
  unfold Opt. split.
  - intros H. apply lang_or_inv in H as [H | H]; [auto |].
    right; apply lang_nil_inv; assumption.
  - intros [H | ->]; [apply lang_or_l; assumption | apply lang_or_r; constructor].
Qed.

Lemma lang_repeat_class p n s :
  lang (Repeat n (Class p)) s <-> List.length s = n /\ forallb p s = true.
Proof.
  revert s; induction n as [| n IH]; intros s; simpl.
  - split.
    + intros H. apply lang_nil_inv in H as ->. auto.
    + intros [H _]. apply length_zero_iff_nil in H as ->. constructor.
  - split.
    + intros H. apply lang_seq_inv in H as (u & v & -> & Hu & Hv).
      apply lang_class_inv in Hu as (d & -> & Hd).
      apply IH in Hv as [<- Hv]. simpl. rewrite Hd, Hv. auto.
    + intros [Hl Hp]. destruct s as [| d s]; [discriminate |].
      simpl in Hl, Hp. apply andb_true_iff in Hp as [Hd Hp].
      change (d :: s) with ([d] ++ s).
      constructor; [constructor; assumption | apply IH; split; [lia | assumption]].
Qed.

Lemma lang_many_class p s : lang (Many (Class p)) s <-> forallb p s = true.
Proof.
  split.
  - intros H. remember (Many (Class p)) as r eqn:E.
    induction H; try discriminate; [reflexivity |].
    injection E as ->. apply lang_class_inv in H as (d & -> & Hd).
    simpl. rewrite Hd. auto.
  - induction s as [| d s IH]; simpl; intros H; [constructor |].
    apply andb_true_iff in H as [Hd Hs].
    change (d :: s) with ([d] ++ s).
    constructor; [constructor; assumption | auto].
Qed.

Lemma lang_plus_class p s :
  lang (Plus (Class p)) s <-> s <> [] /\ forallb p s = true.
Proof.
  unfold Plus. split.
  - intros H. apply lang_seq_inv in H as (u & v & -> & Hu & Hv).
    apply lang_class_inv in Hu as (d & -> & Hd).
    apply lang_many_class in Hv. simpl. rewrite Hd, Hv. split; [discriminate | auto].
  - intros [Hn Hp]. destruct s as [| d s]; [congruence |].
    simpl in Hp. apply andb_true_iff in Hp as [Hd Hs].
    change (d :: s) with ([d] ++ s).
    constructor; [constructor; assumption | apply lang_many_class; assumption].
Qed.

End ReFacts.

(** ** The validator *)
Module ValidatorFacts.
Import ReFacts.

Lemma chars_app (a b : string) : chars (a ++ b) = chars a ++ chars b.
Proof. induction a as [| c a IH]; simpl; [reflexivity | f_equal; exact IH]. Qed.

Lemma chars_length (a : string) : List.length (chars a) = String.length a.
Proof. induction a as [| c a IH]; simpl; [reflexivity | f_equal; exact IH]. Qed.

Lemma validate_lang (url : string) :
  validate url = true <->
  exists body nl, chars url = body ++ nl
                  /\ lang youtube_regex body /\ (nl = [] \/ nl = [newline]).
Proof.
  unfold validate, match_dollar. rewrite accepts_lang. split.
  - intros H. apply lang_seq_inv in H as (u & v & E & Hu & Hv).
    exists u, v. repeat split; auto.
    apply lang_opt in Hv as [Hv | ->]; [| auto].
    right. apply lang_chr. exact Hv.
  - intros (u & v & -> & Hu & Hv). constructor; [assumption |].
    apply lang_opt. destruct Hv as [-> | ->]; [auto |].
    left. apply lang_chr. reflexivity.
Qed.

(** What the three parts of the pattern in front of the tail accept. *)
Lemma scheme_words u :
  lang (Opt (Seq (Lit (chars "http")) (Seq (Opt (Chr "s")) (Lit (chars "://"))))) u
  <-> u = [] \/ u = chars "http://" \/ u = chars "https://".
Proof.
  rewrite lang_opt. split.
  - intros [H | ->]; [| auto].
    apply lang_seq_inv in H as (a & b & -> & Ha & Hb).
    apply lang_lit in Ha as ->.
    apply lang_seq_inv in Hb as (c & d & -> & Hc & Hd).
    apply lang_lit in Hd as ->.
    apply lang_opt in Hc as [Hc | ->]; [| auto].
    apply lang_chr in Hc as ->. auto.
  - intros [-> | [-> | ->]]; [auto | left | left].
    + apply (lang_seq _ _ (chars "http") (chars "://")); [apply lang_lit; reflexivity |].
      apply (lang_seq _ _ [] (chars "://")); [apply lang_opt; auto | apply lang_lit; reflexivity].
    + apply (lang_seq _ _ (chars "http") (chars "s://")); [apply lang_lit; reflexivity |].
      apply (lang_seq _ _ ["s"%char] (chars "://")); [| apply lang_lit; reflexivity].
      apply lang_opt; left. apply lang_chr; reflexivity.
Qed.

Lemma host_words h :
  lang host_part h <->
  exists u v w,
    h = u ++ v ++ w ++ chars "/"
    /\ (u = [] \/ u = chars "http://" \/ u = chars "https://")
    /\ (v = [] \/ v = chars "www.")
    /\ (w = chars "youtube.com" \/ w = chars "youtu.be").
Proof.
  unfold host_part. split.
  - intros H.
    apply lang_seq_inv in H as (u & r1 & -> & Hu & H).
    apply lang_seq_inv in H as (v & r2 & -> & Hv & H).
    apply lang_seq_inv in H as (w & r3 & -> & Hw & H).
    apply lang_chr in H as ->.
    exists u, v, w. split; [reflexivity |].
    apply scheme_words in Hu. split; [assumption |]. split.
    + apply lang_opt in Hv as [Hv | ->]; [| auto]. apply lang_lit in Hv. auto.
    + apply lang_or_inv in Hw as [Hw | Hw]; apply lang_lit in Hw; auto.
  - intros (u & v & w & -> & Hu & Hv & Hw).
    constructor; [apply scheme_words; assumption |].
    constructor.
    { apply lang_opt. destruct Hv as [-> | ->]; [auto |].
      left; apply lang_lit; reflexivity. }
    constructor; [| apply lang_chr; reflexivity].
    destruct Hw as [-> | ->];
      [apply lang_or_l | apply lang_or_r]; apply lang_lit; reflexivity.
Qed.

Lemma marker_words m :
  lang marker_part m <->
  m = [] \/ m = chars "watch?v=" \/ m = chars "embed/" \/ m = chars "v/"
  \/ exists x, x <> [] /\ forallb not_newline x = true /\ m = x ++ chars "?v=".
Proof.
  unfold marker_part. rewrite lang_opt. split.
  - intros [H | ->]; [| auto].
    apply lang_or_inv in H as [H | H]; [apply lang_lit in H; auto |].
    apply lang_or_inv in H as [H | H]; [apply lang_lit in H; auto |].
    apply lang_or_inv in H as [H | H]; [apply lang_lit in H; auto 6 |].
    apply lang_seq_inv in H as (x & y & -> & Hx & Hy).
    apply lang_lit in Hy as ->. apply lang_plus_class in Hx as [Hn Hx].
    do 4 right. exists x. auto.
  - intros [-> | [-> | [-> | [-> | (x & Hn & Hx & ->)]]]]; [auto | left .. ].
    + apply lang_or_l, lang_lit; reflexivity.
    + apply lang_or_r, lang_or_l, lang_lit; reflexivity.
    + apply lang_or_r, lang_or_r, lang_or_l, lang_lit; reflexivity.
    + apply lang_or_r, lang_or_r, lang_or_r. constructor.
      * apply lang_plus_class; auto.
      * apply lang_lit; reflexivity.
Qed.

Lemma id_words i :
  lang id_part i <-> List.length i = 11 /\ forallb id_char i = true.
Proof. apply lang_repeat_class. Qed.

Lemma tail_words t : lang tail_part t <-> forallb not_newline t = true.
Proof.
  unfold tail_part, Dot. rewrite lang_opt, lang_many_class. split.
  - intros [H | ->]; auto.
  - auto.
Qed.

(** The reading of [has_id_segment] finds what the pattern accepted. *)
Lemma strip_app w r : strip w (w ++ r) = Some r.
Proof.
  induction w as [| c w IH]; simpl; [reflexivity |].
  rewrite Ascii.eqb_refl. exact IH.
Qed.

Lemma id_here_app i z :
  List.length i = 11 -> forallb id_char i = true -> id_here (i ++ z) = true.
Proof.
  intros Hl Hp. unfold id_here. apply andb_true_iff. split.
  - apply Nat.leb_le. rewrite length_app. lia.
  - rewrite <- Hl at 1. rewrite firstn_app, firstn_all, Nat.sub_diag.
    simpl. rewrite app_nil_r. exact Hp.
Qed.

Lemma id_after_app mk i z :
  List.length i = 11 -> forallb id_char i = true ->
  id_after mk (mk ++ i ++ z) = true.
Proof.
  intros Hl Hp. unfold id_after. rewrite strip_app. apply id_here_app; assumption.
Qed.

Lemma id_after_query_app x i z :
  x <> [] -> forallb not_newline x = true ->
  List.length i = 11 -> forallb id_char i = true ->
  id_after_query (x ++ chars "?v=" ++ i ++ z) = true.
Proof.
  intros Hn Hx Hl Hp. induction x as [| c x IH]; [congruence |].
  simpl in Hx. apply andb_true_iff in Hx as [Hc Hx].
  change ((c :: x) ++ chars "?v=" ++ i ++ z)
    with (c :: (x ++ chars "?v=" ++ i ++ z)).
  cbn [id_after_query]. rewrite Hc. cbn [andb].
  destruct x as [| d x'].
  - cbn [app]. rewrite id_after_app by assumption. reflexivity.
  - rewrite IH by (assumption || discriminate). apply orb_true_r.
Qed.

Lemma after_host_app h r : lang host_part h -> after_host (h ++ r) = Some r.
Proof.
  intros H. apply host_words in H as (u & v & w & -> & Hu & Hv & Hw).
  destruct Hu as [-> | [-> | ->]], Hv as [-> | ->], Hw as [-> | ->];
    reflexivity.
Qed.

Lemma youtube_regex_words body :
  lang youtube_regex body <->
  exists h m i t,
    body = h ++ m ++ i ++ t
    /\ lang host_part h /\ lang marker_part m
    /\ (List.length i = 11 /\ forallb id_char i = true)
    /\ forallb not_newline t = true.
Proof.
  unfold youtube_regex. split.
  - intros H.
    apply lang_seq_inv in H as (h & r1 & -> & Hh & H).
    apply lang_seq_inv in H as (m & r2 & -> & Hm & H).
    apply lang_seq_inv in H as (i & t & -> & Hi & Ht).
    exists h, m, i, t. rewrite <- id_words, <- tail_words. auto.
  - intros (h & m & i & t & -> & Hh & Hm & Hi & Ht).
    apply id_words in Hi. apply tail_words in Ht.
    repeat apply lang_seq; assumption.
Qed.

(** [has_id_segment] says what its words say: the string is a host part,
    a position marker, eleven identifier characters and a rest. *)
Lemma strip_some w : forall s r, strip w s = Some r -> s = w ++ r.
Proof.
  induction w as [| c w IH]; intros s r; simpl.
  - intros H. injection H as ->. reflexivity.
  - destruct s as [| d s]; [discriminate |].
    destruct (Ascii.eqb c d) eqn:E; [| discriminate].
    apply Ascii.eqb_eq in E as ->. intros H. f_equal. auto.
Qed.

Lemma id_here_inv r :
  id_here r = true ->
  exists i z, r = i ++ z /\ List.length i = 11 /\ forallb id_char i = true.
Proof.
  unfold id_here. intros H. apply andb_true_iff in H as [Hl Hp].
  apply Nat.leb_le in Hl.
  exists (firstn 11 r), (skipn 11 r).
  rewrite firstn_skipn, length_firstn. repeat split; [lia | exact Hp].
Qed.

Lemma id_after_inv mk r :
  id_after mk r = true ->
  exists i z, r = mk ++ i ++ z /\ List.length i = 11 /\ forallb id_char i = true.
Proof.
  unfold id_after. destruct (strip mk r) as [r' |] eqn:E; [| discriminate].
  intros H. apply strip_some in E as ->.
  apply id_here_inv in H as (i & z & -> & Hi). eauto.
Qed.

Lemma id_after_query_inv r :
  id_after_query r = true ->
  exists x i z,
    x <> [] /\ forallb not_newline x = true
    /\ r = x ++ chars "?v=" ++ i ++ z
    /\ List.length i = 11 /\ forallb id_char i = true.
Proof.
  induction r as [| c r IH]; [discriminate |].
  cbn [id_after_query]. intros H.
  apply andb_true_iff in H as [Hc H]. apply orb_true_iff in H as [H | H].
  - apply id_after_inv in H as (i & z & -> & Hi).
    exists [c], i, z. simpl. rewrite Hc. repeat split; try tauto. discriminate.
  - destruct (IH H) as (x & i & z & _ & Hx & -> & Hi).
    exists (c :: x), i, z. simpl. rewrite Hc, Hx.
    repeat split; try tauto. discriminate.
Qed.

Lemma after_host_inv s r :
  after_host s = Some r -> exists h, s = h ++ r /\ lang host_part h.
Proof.
  unfold after_host, after_www, after_scheme. intros H.
  assert (pick : forall u v w : text,
             (u = [] \/ u = chars "http://" \/ u = chars "https://") ->
             (v = [] \/ v = chars "www.") ->
             (w = chars "youtube.com" \/ w = chars "youtu.be") ->
             exists h, u ++ v ++ (w ++ chars "/") ++ r = h ++ r /\ lang host_part h).
  { intros u v w Hu Hv Hw. exists (u ++ v ++ w ++ chars "/"). split.
    - now rewrite <- !app_assoc.
    - apply host_words. exists u, v, w. auto. }
  destruct (strip (chars "https://") s) as [s1 |] eqn:E1;
    [apply strip_some in E1 as -> |
     destruct (strip (chars "http://") s) as [s1 |] eqn:E2;
       [apply strip_some in E2 as -> | ]].
  all: match type of H with
       | context [strip (chars "www.") ?t] =>
           destruct (strip (chars "www.") t) as [s2 |] eqn:E3;
             [apply strip_some in E3 as -> |]
       end.
  all: match type of H with
       | context [strip (chars "youtube.com/") ?t] =>
           destruct (strip (chars "youtube.com/") t) as [s3 |] eqn:E4;
             [injection H as ->; apply strip_some in E4 as -> |
              apply strip_some in H as ->]
       end.
  - apply (pick (chars "https://") (chars "www.") (chars "youtube.com")); auto.
  - apply (pick (chars "https://") (chars "www.") (chars "youtu.be")); auto.
  - apply (pick (chars "https://") [] (chars "youtube.com")); auto.
  - apply (pick (chars "https://") [] (chars "youtu.be")); auto.
  - apply (pick (chars "http://") (chars "www.") (chars "youtube.com")); auto.
  - apply (pick (chars "http://") (chars "www.") (chars "youtu.be")); auto.
  - apply (pick (chars "http://") [] (chars "youtube.com")); auto.
  - apply (pick (chars "http://") [] (chars "youtu.be")); auto.
  - apply (pick [] (chars "www.") (chars "youtube.com")); auto.
  - apply (pick [] (chars "www.") (chars "youtu.be")); auto.
  - apply (pick [] [] (chars "youtube.com")); auto.
  - apply (pick [] [] (chars "youtu.be")); auto.
Qed.

Lemma has_id_segment_iff (url : string) :
  has_id_segment url = true <->
  exists h m i z,
    chars url = h ++ m ++ i ++ z
    /\ lang host_part h /\ lang marker_part m
    /\ List.length i = 11 /\ forallb id_char i = true.
Proof.
  unfold has_id_segment. split.
  - destruct (after_host (chars url)) as [r |] eqn:E; [| discriminate].
    apply after_host_inv in E as (h & -> & Hh). intros H.
    rewrite !orb_true_iff in H.
    destruct H as [[[[H | H] | H] | H] | H].
    + apply id_here_inv in H as (i & z & -> & Hi).
      exists h, [], i, z. rewrite marker_words. tauto.
    + apply id_after_inv in H as (i & z & -> & Hi).
      exists h, (chars "watch?v="), i, z. rewrite marker_words. tauto.
    + apply id_after_inv in H as (i & z & -> & Hi).
      exists h, (chars "embed/"), i, z. rewrite marker_words. tauto.
    + apply id_after_inv in H as (i & z & -> & Hi).
      exists h, (chars "v/"), i, z. rewrite marker_words. tauto.
    + apply id_after_query_inv in H as (x & i & z & Hn & Hx & -> & Hi).
      exists h, (x ++ chars "?v="), i, z. rewrite marker_words, <- app_assoc.
      split; [reflexivity |]. split; [exact Hh |]. split; [| exact Hi].
      do 4 right. exists x. auto.
  - intros (h & m & i & z & -> & Hh & Hm & Hl & Hp).
    rewrite (after_host_app h _ Hh).
    apply marker_words in Hm as [-> | [-> | [-> | [-> | (x & Hn & Hx & ->)]]]].
    + cbn [app]. rewrite id_here_app by assumption. reflexivity.
    + rewrite (id_after_app (chars "watch?v=")) by assumption.
      now rewrite !orb_true_r.
    + rewrite (id_after_app (chars "embed/")) by assumption.
      now rewrite !orb_true_r.
    + rewrite (id_after_app (chars "v/")) by assumption.
      now rewrite !orb_true_r.
    + rewrite <- app_assoc.
      rewrite id_after_query_app by assumption.
      now rewrite !orb_true_r.
Qed.

(** What the validator accepts, all of it: the segment in its position,
    then no newline but possibly a last one. *)
Lemma validate_iff (url : string) :
  validate url = true <->
  exists h m i t nl,
    chars url = h ++ m ++ i ++ t ++ nl
    /\ lang host_part h /\ lang marker_part m
    /\ (List.length i = 11 /\ forallb id_char i = true)
    /\ forallb not_newline t = true
    /\ (nl = [] \/ nl = [newline]).
Proof.
  rewrite validate_lang. split.
  - intros (body & nl & E & Hb & Hnl).
    apply youtube_regex_words in Hb as (h & m & i & t & -> & Hh & Hm & Hi & Ht).
    exists h, m, i, t, nl. rewrite E, <- !app_assoc. auto 10.
  - intros (h & m & i & t & nl & E & Hh & Hm & Hi & Ht & Hnl).
    exists (h ++ m ++ i ++ t), nl. rewrite E, <- !app_assoc.
    split; [reflexivity |]. split; [| exact Hnl].
    apply youtube_regex_words. exists h, m, i, t. auto 10.
Qed.

(** Some strings, tried. *)
Example validate_rejects_short_id :
  validate "youtube.com/watch?v=short" = false
  /\ has_id_segment "youtube.com/watch?v=short" = false.
Proof. split; reflexivity. Qed.

Example validate_accepts_any_eleven_after_host :
  validate "youtube.com/this-is-a-channel" = true.
Proof. reflexivity. Qed.

Example validate_accepts_later_query :
  validate "https://www.youtube.com/results?q=x?v=dQw4w9WgXcQ&t=1" = true.
Proof. reflexivity. Qed.

Example validate_rejects_other_host :
  validate "https://vimeo.com/watch?v=dQw4w9WgXcQ" = false.
Proof. reflexivity. Qed.

End ValidatorFacts.

(** C3. A string in which no eleven identifier characters stand in a
    recognized position (right after the host's slash, after [watch?v=],
    [embed/] or [v/], or after a later [?v=]) is rejected by the validator:
    [youtube_regex.match] finds no match. *)
Theorem validate_needs_id_segment (url : string) :
  has_id_segment url = false -> validate url = false.
Proof.
  intros Hno. destruct (validate url) eqn:V; [| reflexivity].
  apply ValidatorFacts.validate_lang in V as (body & nl & E & Hb & _).
  apply ValidatorFacts.youtube_regex_words in Hb
    as (h & m & i & t & -> & Hh & Hm & [Hl Hp] & _).
  unfold has_id_segment in Hno. rewrite E in Hno.
  replace ((h ++ m ++ i ++ t) ++ nl) with (h ++ m ++ i ++ t ++ nl) in Hno
    by (now rewrite <- !app_assoc).
  rewrite (ValidatorFacts.after_host_app h _ Hh) in Hno.
  rewrite <- Hno. symmetry.
  apply ValidatorFacts.marker_words in Hm
    as [-> | [-> | [-> | [-> | (x & Hn & Hx & ->)]]]].
  - cbn [app]. rewrite ValidatorFacts.id_here_app by assumption. reflexivity.
  - rewrite (ValidatorFacts.id_after_app (chars "watch?v=")) by assumption.
    now rewrite !orb_true_r.
  - rewrite (ValidatorFacts.id_after_app (chars "embed/")) by assumption.
    now rewrite !orb_true_r.
  - rewrite (ValidatorFacts.id_after_app (chars "v/")) by assumption.
    now rewrite !orb_true_r.
  - rewrite <- app_assoc.
    rewrite ValidatorFacts.id_after_query_app by assumption.
    now rewrite !orb_true_r.
Qed.

Lemma validate_needs_id_segment_witness :
  has_id_segment "not a url" = false /\ validate "not a url" = false.
Proof.
  split; [reflexivity |].
  apply validate_needs_id_segment. reflexivity.
Defined.

(** C7. The validator accepts the watch form, the short form and the embed
    form of a URL, whatever eleven characters of [[a-zA-Z0-9_-]] stand in
    the place of the identifier. *)
Theorem validate_accepts_known_forms (ident : string) :
  String.length ident = 11 ->
  forallb id_char (chars ident) = true ->
  validate ("https://www.youtube.com/watch?v=" ++ ident) = true
  /\ validate ("https://youtu.be/" ++ ident) = true
  /\ validate ("youtube.com/embed/" ++ ident) = true.
Proof.
  intros Hl Hp. rewrite <- ValidatorFacts.chars_length in Hl.
  assert (ok : forall h m : string,
             lang host_part (chars h) -> lang marker_part (chars m) ->
             validate (h ++ m ++ ident) = true).
  { intros h m Hh Hm. apply ValidatorFacts.validate_lang.
    exists (chars (h ++ m ++ ident)), []. rewrite app_nil_r.
    repeat split; auto.
    apply ValidatorFacts.youtube_regex_words.
    exists (chars h), (chars m), (chars ident), [].
    rewrite !ValidatorFacts.chars_app, app_nil_r. auto 10. }
  repeat split.
  - apply (ok "https://www.youtube.com/"%string "watch?v="%string).
    + apply ValidatorFacts.host_words.
      exists (chars "https://"), (chars "www."), (chars "youtube.com"). auto 10.
    + apply ValidatorFacts.marker_words. auto.
  - apply (ok "https://youtu.be/"%string EmptyString).
    + apply ValidatorFacts.host_words.
      exists (chars "https://"), [], (chars "youtu.be"). auto 10.
    + apply ValidatorFacts.marker_words. auto.
  - apply (ok "youtube.com/"%string "embed/"%string).
    + apply ValidatorFacts.host_words.
      exists [], [], (chars "youtube.com"). auto 10.
    + apply ValidatorFacts.marker_words. auto.
Qed.

Lemma validate_accepts_known_forms_witness :
  validate "https://www.youtube.com/watch?v=dQw4w9WgXcQ" = true
  /\ validate "https://youtu.be/dQw4w9WgXcQ" = true
  /\ validate "youtube.com/embed/dQw4w9WgXcQ" = true.
Proof.
  apply (validate_accepts_known_forms "dQw4w9WgXcQ"); reflexivity.
Defined.

(** ** Running a coroutine *)
Module RunFacts.

Lemma run_bind {A B : Type} (p : prog A) (f : A -> prog B) w :
  forall s,
    run (bind p f) w s =
    match run p w s with
    | Some (a, s1, tr1) =>
        match run (f a) w s1 with
        | Some (b, s2, tr2) => Some (b, s2, tr1 ++ tr2)
        | None => None
        end
    | None => None
    end.
Proof.
  induction p as [a | k IH | k IH | o u d k IH | k IH]; intros s; simpl.
  - destruct (run (f a) w s) as [[[b s2] tr2] |]; reflexivity.
  - destruct (Semaphore.acquire_enter 0 s) as [s' | s']; [| reflexivity].
    rewrite IH. destruct (run k w s') as [[[a s1] tr1] |]; simpl; [| reflexivity].
    destruct (run (f a) w s1) as [[[b s2] tr2] |]; reflexivity.
  - rewrite IH.
    destruct (run k w (Semaphore.release s)) as [[[a s1] tr1] |]; simpl; [| reflexivity].
    destruct (run (f a) w s1) as [[[b s2] tr2] |]; reflexivity.
  - rewrite IH.
    destruct (run (k (answer w o u d)) w s) as [[[a s1] tr1] |]; simpl; [| reflexivity].
    destruct (run (f a) w s1) as [[[b s2] tr2] |]; reflexivity.
  - rewrite IH.
    destruct (run (k (drawn w)) w s) as [[[a s1] tr1] |]; simpl; [| reflexivity].
    destruct (run (f a) w s1) as [[[b s2] tr2] |]; reflexivity.
Qed.

(** Code that does not touch the gate runs to its end and leaves the gate
    as it found it. *)
Lemma run_gate_free {A : Type} (p : prog A) w s :
  gate_free p ->
  exists a tr, run p w s = Some (a, s, tr) /\ forallb quiet_event tr = true.
Proof.
  induction 1 as [a | o u d k _ IH | k _ IH]; simpl.
  - exists a, []. auto.
  - destruct (IH (answer w o u d)) as (a & tr & -> & Hq).
    exists a, (EvExtractInfo o u d :: tr). auto.
  - destruct (IH (drawn w)) as (a & tr & -> & Hq).
    exists a, (EvUuid4 :: tr). auto.
Qed.

Lemma gate_free_and_then {A B : Type} (p : prog (result A))
      (f : A -> prog (result B)) :
  gate_free p -> (forall a, gate_free (f a)) -> gate_free (and_then p f).
Proof.
  intros Hp Hf. unfold and_then.
  induction Hp as [r | o u d k _ IH | k _ IH]; simpl.
  - destruct r; [apply Hf | constructor].
  - constructor; exact IH.
  - constructor; exact IH.
Qed.

Lemma download_steps_gate_free youtube_url download_path request_id :
  gate_free (download_steps youtube_url download_path request_id).
Proof.
  unfold download_steps.
  apply gate_free_and_then; [constructor; intros; constructor |].
  intros info. destruct (exceeds_limit (duration info)); [constructor |].
  apply gate_free_and_then.
  { destruct (get_title info (PyStr "video")); constructor. }
  intros sanitized_title.
  apply gate_free_and_then; [constructor; intros; constructor |].
  intros u.
  apply gate_free_and_then; [constructor; intros; constructor |].
  intros info'. constructor.
Qed.

Lemma on_exception_returns e : exists r, on_exception e = Ret r.
Proof. unfold on_exception. destruct (exc_type e); eexists; reflexivity. Qed.

Lemma quiet_counts tr :
  forallb quiet_event tr = true ->
  count is_acquire tr = 0 /\ count is_release tr = 0.
Proof.
  unfold count. induction tr as [| e tr IH]; simpl; [auto |].
  intros H. apply andb_true_iff in H as [He Htr].
  destruct (IH Htr) as [Ha Hr].
  unfold quiet_event in He. apply andb_true_iff in He as [H1 H2].
  apply negb_true_iff in H1, H2. rewrite H1, H2. auto.
Qed.

Lemma count_app f tr1 tr2 : count f (tr1 ++ tr2) = count f tr1 + count f tr2.
Proof. unfold count. rewrite filter_app, length_app. reflexivity. Qed.

(** A free gate gives the permit at once, and gets it back whole. *)
Lemma enter_unlocked me s :
  Semaphore.locked s = false ->
  exists s', Semaphore.acquire_enter me s = Semaphore.Got s'
             /\ Semaphore.release s' = s
             /\ Semaphore._value s' = (Semaphore._value s - 1)%Z.
Proof.
  intros H. unfold Semaphore.acquire_enter. rewrite H.
  eexists. split; [reflexivity |]. split; [| reflexivity].
  destruct s as [v ws]. unfold Semaphore.locked in H. simpl in *.
  apply orb_false_iff in H as [_ H].
  destruct ws as [| x ws]; [| discriminate].
  unfold Semaphore.release, Semaphore._wake_up_next. simpl.
  f_equal. lia.
Qed.

(** The guarded block alone on the loop, from a free gate. *)
Lemma run_guarded youtube_url download_path request_id w s :
  Semaphore.locked s = false ->
  exists r mid,
    run (download_steps youtube_url download_path request_id) w
        {| Semaphore._value := Semaphore._value s - 1;
           Semaphore._waiters := Semaphore._waiters s |}
    = Some (r, {| Semaphore._value := Semaphore._value s - 1;
                  Semaphore._waiters := Semaphore._waiters s |}, mid)
    /\ forallb quiet_event mid = true
    /\ run (guarded_download youtube_url download_path request_id) w s
       = Some (r, s, EvAcquire :: mid ++ [EvRelease]).
Proof.
  intros H.
  destruct (enter_unlocked 0 s H) as (s' & E & Hrel & _).
  pose proof E as E'. unfold Semaphore.acquire_enter in E'. rewrite H in E'.
  injection E' as <-.
  destruct (run_gate_free _ w
              {| Semaphore._value := Semaphore._value s - 1;
                 Semaphore._waiters := Semaphore._waiters s |}
              (download_steps_gate_free youtube_url download_path request_id))
    as (r & mid & Hrun & Hq).
  exists r, mid. split; [exact Hrun |]. split; [exact Hq |].
  unfold guarded_download, async_with_semaphore. cbn [run]. rewrite E.
  rewrite run_bind, Hrun. cbn [run emit]. rewrite Hrel. reflexivity.
Qed.

Lemma run_task youtube_url download_path request_id w s r s' tr :
  run (guarded_download youtube_url download_path request_id) w s = Some (r, s', tr) ->
  run (download_video_task youtube_url download_path request_id) w s
  = Some (match r with
          | inl a => inl a
          | inr e =>
              match exc_type e with
              | DownloadError =>
                  inl {| status := "error";
                         message := "Failed to download video: " ++ exc_str e |}
              | OtherException =>
                  inl {| status := "error";
                         message := "An unexpected error occurred during download. Please try again later." |}
              | NonException => inr e
              end
          end, s', tr).
Proof.
  intros H. unfold download_video_task, try_except. rewrite run_bind, H.
  destruct r as [a | e]; simpl; [now rewrite app_nil_r |].
  unfold on_exception. destruct (exc_type e); simpl; now rewrite app_nil_r.
Qed.

End RunFacts.

(** ** The steps of the worker *)
Module WorkerFacts.
Import RunFacts.

Lemma run_guarded_steps youtube_url download_path request_id w s r mid :
  Semaphore.locked s = false ->
  (forall s0, run (download_steps youtube_url download_path request_id) w s0
              = Some (r, s0, mid)) ->
  run (guarded_download youtube_url download_path request_id) w s
  = Some (r, s, EvAcquire :: mid ++ [EvRelease]).
Proof.
  intros H Hsteps.
  destruct (enter_unlocked 0 s H) as (s' & E & Hrel & _).
  unfold guarded_download, async_with_semaphore. cbn [run]. rewrite E.
  rewrite run_bind, Hsteps. cbn [run emit]. rewrite Hrel. reflexivity.
Qed.

Lemma run_steps_probe_fails youtube_url download_path request_id w e :
  answer w ydl_opts_info youtube_url false = inr e ->
  forall s, run (download_steps youtube_url download_path request_id) w s
            = Some (inr e, s, [EvExtractInfo ydl_opts_info youtube_url false]).
Proof.
  intros Ha s. unfold download_steps, and_then, extract_info.
  cbn [bind run]. rewrite Ha. reflexivity.
Qed.

Lemma run_steps_long youtube_url download_path request_id w info :
  answer w ydl_opts_info youtube_url false = inl info ->
  exceeds_limit (duration info) = true ->
  forall s, run (download_steps youtube_url download_path request_id) w s
            = Some (inl {| status := "error";
                           message := "Video duration exceeds the allowed limit." |},
                    s, [EvExtractInfo ydl_opts_info youtube_url false]).
Proof.
  intros Ha Hd s. unfold download_steps, and_then, extract_info.
  cbn [bind run]. rewrite Ha. cbn [bind]. rewrite Hd. reflexivity.
Qed.

Lemma run_steps_fetch youtube_url download_path request_id w info t :
  answer w ydl_opts_info youtube_url false = inl info ->
  exceeds_limit (duration info) = false ->
  get_title info (PyStr "video") = PyStr t ->
  forall s,
    run (download_steps youtube_url download_path request_id) w s
    = Some (match answer w (ydl_opts (template_of download_path t (drawn w)))
                         youtube_url true with
            | inl info' =>
                inl {| status := "success";
                       message := "Successfully downloaded "
                                  ++ py_str (get_title info' PyNone) |}
            | inr e => inr e
            end,
            s,
            [EvExtractInfo ydl_opts_info youtube_url false; EvUuid4;
             EvExtractInfo (ydl_opts (template_of download_path t (drawn w)))
                           youtube_url true]).
Proof.
  intros Ha Hd Ht s. unfold download_steps, and_then, extract_info, uuid4.
  cbn [bind run]. rewrite Ha. cbn [bind]. rewrite Hd, Ht.
  cbn [sanitize return_ bind run]. unfold template_of.
  destruct (answer w _ youtube_url true); reflexivity.
Qed.

Lemma run_steps_bad_title youtube_url download_path request_id w info :
  answer w ydl_opts_info youtube_url false = inl info ->
  exceeds_limit (duration info) = false ->
  get_title info (PyStr "video") = PyNone ->
  forall s,
    run (download_steps youtube_url download_path request_id) w s
    = Some (inr {| exc_type := OtherException;
                   exc_str := "expected string or bytes-like object" |},
            s, [EvExtractInfo ydl_opts_info youtube_url false]).
Proof.
  intros Ha Hd Ht s. unfold download_steps, and_then, extract_info, uuid4.
  cbn [bind run]. rewrite Ha. cbn [bind]. rewrite Hd, Ht. reflexivity.
Qed.

Lemma exceeds_limit_gt d :
  (MAX_VIDEO_DURATION_SECONDS < d)%Z -> exceeds_limit (Some d) = true.
Proof.
  unfold exceeds_limit, MAX_VIDEO_DURATION_SECONDS. intros H.
  apply andb_true_iff. split.
  - apply negb_true_iff, Z.eqb_neq. lia.
  - apply Z.ltb_lt. exact H.
Qed.

End WorkerFacts.

(** C4. When the probe reports a duration above
    [MAX_VIDEO_DURATION_SECONDS], the worker returns the error outcome
    "Video duration exceeds the allowed limit." and its run contains the
    probe only: [extract_info] is never called with [download=True]. *)
Theorem long_video_is_not_fetched
    (youtube_url download_path request_id : string)
    (w : collaborator) (s : Semaphore.t) (info : info_dict) (d : Z) :
  Semaphore.locked s = false ->
  answer w ydl_opts_info youtube_url false = inl info ->
  duration info = Some d ->
  (MAX_VIDEO_DURATION_SECONDS < d)%Z ->
  exists tr,
    run (download_video_task youtube_url download_path request_id) w s
    = Some (inl {| status := "error";
                   message := "Video duration exceeds the allowed limit." |}, s, tr)
    /\ tr = [EvAcquire; EvExtractInfo ydl_opts_info youtube_url false; EvRelease]
    /\ count is_fetch tr = 0.
Proof.
  intros Hs Ha Hd Hgt. eexists. split; [| split; reflexivity].
  apply (RunFacts.run_task youtube_url download_path request_id w s (inl _)).
  apply (WorkerFacts.run_guarded_steps youtube_url download_path request_id w s
           _ [EvExtractInfo ydl_opts_info youtube_url false] Hs).
  apply WorkerFacts.run_steps_long with (info := info); [exact Ha |].
  rewrite Hd. apply WorkerFacts.exceeds_limit_gt, Hgt.
Qed.

Lemma long_video_is_not_fetched_witness :
  exists tr,
    run (download_video_task sample_url DOWNLOAD_DIR "1a2b3c4d")
        (lib_long "0123456789abcdef0123456789abcdef")
        (Semaphore.make MAX_CONCURRENT_DOWNLOADS)
    = Some (inl {| status := "error";
                   message := "Video duration exceeds the allowed limit." |},
            Semaphore.make MAX_CONCURRENT_DOWNLOADS, tr)
    /\ tr = [EvAcquire; EvExtractInfo ydl_opts_info sample_url false; EvRelease]
    /\ count is_fetch tr = 0.
Proof.
  apply (long_video_is_not_fetched sample_url DOWNLOAD_DIR "1a2b3c4d"
           (lib_long "0123456789abcdef0123456789abcdef")
           (Semaphore.make MAX_CONCURRENT_DOWNLOADS) long_info 4000%Z);
    reflexivity.
Defined.

(** C10, as the code has it. When the guarded block ends with an exception
    of a class under [Exception] other than [DownloadError], the worker
    returns the error outcome with the fixed message, in which nothing of
    the exception appears; when it ends with a [DownloadError], the message
    carries the text of the exception; when it ends with an exception
    outside [Exception], no clause catches it and it leaves the worker,
    which returns no outcome. In each case the slot has been released by
    then: the run ends with the release and the gate is as it was. *)
Theorem unexpected_error_message
    (youtube_url download_path request_id : string)
    (w : collaborator) (s s' : Semaphore.t) (e : exn) (tr : list event) :
  run (guarded_download youtube_url download_path request_id) w s
  = Some (inr e, s', tr) ->
  (exc_type e = OtherException ->
   run (download_video_task youtube_url download_path request_id) w s
   = Some (inl {| status := "error";
                  message := "An unexpected error occurred during download. Please try again later." |},
           s', tr))
  /\ (exc_type e = DownloadError ->
      run (download_video_task youtube_url download_path request_id) w s
      = Some (inl {| status := "error";
                     message := "Failed to download video: " ++ exc_str e |},
              s', tr))
  /\ (exc_type e = NonException ->
      run (download_video_task youtube_url download_path request_id) w s
      = Some (inr e, s', tr))
  /\ s' = s
  /\ exists mid, tr = EvAcquire :: mid ++ [EvRelease].
Proof.
  intros H. pose proof (RunFacts.run_task _ _ _ _ _ _ _ _ H) as T.
  cbn beta iota in T.
  split; [intros Hc; rewrite Hc in T; exact T |].
  split; [intros Hc; rewrite Hc in T; exact T |].
  split; [intros Hc; rewrite Hc in T; exact T |].
  destruct (Semaphore.locked s) eqn:L.
  - unfold guarded_download, async_with_semaphore in H. cbn [run] in H.
    unfold Semaphore.acquire_enter in H. rewrite L in H. discriminate H.
  - destruct (RunFacts.run_guarded youtube_url download_path request_id w s L)
      as (r & mid & _ & _ & R).
    rewrite R in H. injection H as _ <- <-. eauto.
Qed.

Lemma unexpected_error_message_witness :
  run (download_video_task sample_url DOWNLOAD_DIR "1a2b3c4d")
      (lib_failing_fetch {| exc_type := OtherException; exc_str := "[Errno 28] No space left on device" |}
                         "0123456789abcdef0123456789abcdef")
      (Semaphore.make MAX_CONCURRENT_DOWNLOADS)
  = Some (inl {| status := "error";
                 message := "An unexpected error occurred during download. Please try again later." |},
          Semaphore.make MAX_CONCURRENT_DOWNLOADS,
          [EvAcquire; EvExtractInfo ydl_opts_info sample_url false; EvUuid4;
           EvExtractInfo
             (ydl_opts (template_of DOWNLOAD_DIR "Me at the zoo: <part 1/2>"
                                    "0123456789abcdef0123456789abcdef"))
             sample_url true;
           EvRelease]).
Proof.
  refine (proj1 (unexpected_error_message sample_url DOWNLOAD_DIR "1a2b3c4d"
                   _ _ _ {| exc_type := OtherException;
                            exc_str := "[Errno 28] No space left on device" |} _ _)
                eq_refl).
  reflexivity.
Defined.

(** C10, as stated, fails: a [KeyboardInterrupt] raised inside the probe is
    an exception other than [DownloadError], the guarded block ends with it,
    and the worker returns no outcome at all: the exception leaves
    [download_video_task]. *)
Lemma unexpected_error_counterexample :
  let e := {| exc_type := NonException; exc_str := "KeyboardInterrupt" |} in
  let w := lib_failing_probe e "0123456789abcdef0123456789abcdef" in
  let s := Semaphore.make MAX_CONCURRENT_DOWNLOADS in
  run (guarded_download sample_url DOWNLOAD_DIR "1a2b3c4d") w s
  = Some (inr e, s, [EvAcquire; EvExtractInfo ydl_opts_info sample_url false; EvRelease])
  /\ exc_type e <> DownloadError
  /\ run (download_video_task sample_url DOWNLOAD_DIR "1a2b3c4d") w s
     = Some (inr e, s, [EvAcquire; EvExtractInfo ydl_opts_info sample_url false; EvRelease])
  /\ ~ (exists out : payload,
          run (download_video_task sample_url DOWNLOAD_DIR "1a2b3c4d") w s
          = Some (inl out, s,
                  [EvAcquire; EvExtractInfo ydl_opts_info sample_url false; EvRelease])).
Proof.
  cbv zeta. repeat split; try reflexivity; try discriminate.
  intros [out H]. discriminate H.
Qed.

(** ** File names *)
Module NameFacts.

Lemma append_cancel_l (a x y : string) : (a ++ x = a ++ y)%string -> x = y.
Proof.
  induction a as [| c a IH]; simpl; intros H; [exact H |].
  injection H as H. auto.
Qed.

Lemma chars_inj (a b : string) : chars a = chars b -> a = b.
Proof.
  unfold chars. intros H.
  rewrite <- (string_of_list_ascii_of_string a),
          <- (string_of_list_ascii_of_string b), H.
  reflexivity.
Qed.

Lemma append_cancel_r (x y e : string) : (x ++ e = y ++ e)%string -> x = y.
Proof.
  intros H. apply chars_inj. apply (f_equal chars) in H.
  rewrite !ValidatorFacts.chars_app in H. exact (app_inv_tail _ _ _ H).
Qed.

Lemma append_assoc3 (a b c : string) : ((a ++ b) ++ c = a ++ b ++ c)%string.
Proof. induction a as [| x a IH]; simpl; [reflexivity | f_equal; exact IH]. Qed.

Lemma accepts_unsafe c : accepts unsafe_pattern [c] = unsafe_char c.
Proof. simpl. destruct (unsafe_char c); reflexivity. Qed.

Lemma unsafe_char_spec c : unsafe_char c = true <-> In c unsafe_chars.
Proof.
  unfold unsafe_char, unsafe_chars. simpl.
  rewrite !orb_true_iff, !Ascii.eqb_eq. intuition congruence.
Qed.

Lemma re_sub_length t :
  String.length (re_sub unsafe_pattern "_" t) = String.length t.
Proof.
  induction t as [| c t IH]; [reflexivity |].
  cbn [re_sub]. rewrite accepts_unsafe.
  destruct (unsafe_char c); simpl; f_equal; exact IH.
Qed.

Lemma re_sub_get t : forall n c,
  String.get n t = Some c ->
  String.get n (re_sub unsafe_pattern "_" t)
  = Some (if unsafe_char c then "_"%char else c).
Proof.
  induction t as [| d t IH]; intros n c H; [destruct n; discriminate |].
  cbn [re_sub]. rewrite accepts_unsafe.
  destruct n as [| n].
  - simpl in H. injection H as ->. destruct (unsafe_char c); reflexivity.
  - simpl in H. destruct (unsafe_char d); simpl; apply IH; exact H.
Qed.

(** A sanitized name never starts a new absolute path. *)
Lemma unique_filename_relative t u :
  starts_with_sep (unique_filename (re_sub unsafe_pattern "_" t) u) = false.
Proof.
  unfold unique_filename. destruct t as [| c t]; [reflexivity |].
  cbn [re_sub]. rewrite accepts_unsafe.
  destruct (unsafe_char c) eqn:E; [reflexivity |].
  simpl. unfold unsafe_char in E. rewrite !orb_false_iff in E.
  tauto.
Qed.

Lemma path_join_relative a b :
  starts_with_sep b = false ->
  exists pre, (path_join a b = pre ++ b)%string
              /\ forall b', starts_with_sep b' = false ->
                            (path_join a b' = pre ++ b')%string.
Proof.
  intros Hb. unfold path_join.
  destruct ((String.length a =? 0)%nat || ends_with_sep a) eqn:E.
  - exists a. rewrite Hb. split; [reflexivity |]. intros b' ->. reflexivity.
  - exists (a ++ "/")%string. rewrite Hb, append_assoc3.
    split; [reflexivity |]. intros b' ->. now rewrite append_assoc3.
Qed.

Lemma template_of_inj download_path t u1 u2 :
  template_of download_path t u1 = template_of download_path t u2 -> u1 = u2.
Proof.
  unfold template_of. intros H.
  destruct (path_join_relative download_path _ (unique_filename_relative t u1))
    as (pre & E1 & E).
  rewrite E1, (E _ (unique_filename_relative t u2)) in H.
  apply append_cancel_l in H. unfold unique_filename, hex in H.
  apply append_cancel_l, append_cancel_l in H.
  exact (append_cancel_r _ _ _ H).
Qed.

End NameFacts.

(** C8, as the code has it. Each of two dispatches whose probes report
    the same title, a string, and a duration within the limit hands exactly
    one output template to the download: the download path joined with the
    sanitized title, an underscore, the hex digits of its own draw of
    [uuid.uuid4()] and the extension placeholder. The two templates differ
    when the two draws differ, and are the same when the draws are: the
    worker draws and does not look for a collision. *)
Theorem same_title_filenames_follow_draws
    (url1 url2 download_path rid1 rid2 t : string)
    (w1 w2 : collaborator) (s1 s2 : Semaphore.t) (info1 info2 : info_dict) :
  Semaphore.locked s1 = false ->
  Semaphore.locked s2 = false ->
  answer w1 ydl_opts_info url1 false = inl info1 ->
  answer w2 ydl_opts_info url2 false = inl info2 ->
  exceeds_limit (duration info1) = false ->
  exceeds_limit (duration info2) = false ->
  title info1 = Some (PyStr t) ->
  title info2 = Some (PyStr t) ->
  exists out1 tr1 out2 tr2,
    run (download_video_task url1 download_path rid1) w1 s1 = Some (out1, s1, tr1)
    /\ run (download_video_task url2 download_path rid2) w2 s2 = Some (out2, s2, tr2)
    /\ templates tr1
       = [path_join download_path
            (re_sub unsafe_pattern "_" t ++ "_" ++ hex (drawn w1) ++ ".%(ext)s")]
    /\ templates tr2
       = [path_join download_path
            (re_sub unsafe_pattern "_" t ++ "_" ++ hex (drawn w2) ++ ".%(ext)s")]
    /\ (drawn w1 <> drawn w2 -> templates tr1 <> templates tr2)
    /\ (drawn w1 = drawn w2 -> templates tr1 = templates tr2).
Proof.
  intros L1 L2 A1 A2 D1 D2 T1 T2.
  assert (G : forall info, title info = Some (PyStr t) ->
                           get_title info (PyStr "video") = PyStr t).
  { intros info H. unfold get_title. now rewrite H. }
  pose proof (WorkerFacts.run_steps_fetch url1 download_path rid1 w1 info1 t
                A1 D1 (G _ T1)) as R1.
  pose proof (WorkerFacts.run_steps_fetch url2 download_path rid2 w2 info2 t
                A2 D2 (G _ T2)) as R2.
  apply (WorkerFacts.run_guarded_steps _ _ _ _ _ _ _ L1), RunFacts.run_task in R1.
  apply (WorkerFacts.run_guarded_steps _ _ _ _ _ _ _ L2), RunFacts.run_task in R2.
  do 4 eexists. split; [exact R1 |]. split; [exact R2 |].
  split; [reflexivity |]. split; [reflexivity |]. split.
  - intros Hne E. apply Hne. injection E as E.
    exact (NameFacts.template_of_inj _ _ _ _ E).
  - intros E. cbn [templates app ydl_opts outtmpl]. now rewrite E.
Qed.

Lemma same_title_filenames_follow_draws_witness :
  exists out1 tr1 out2 tr2,
    run (download_video_task sample_url DOWNLOAD_DIR "1a2b3c4d")
        (lib_ok "0123456789abcdef0123456789abcdef")
        (Semaphore.make MAX_CONCURRENT_DOWNLOADS)
    = Some (out1, Semaphore.make MAX_CONCURRENT_DOWNLOADS, tr1)
    /\ run (download_video_task sample_url DOWNLOAD_DIR "5e6f7a8b")
           (lib_ok "fedcba9876543210fedcba9876543210")
           (Semaphore.make MAX_CONCURRENT_DOWNLOADS)
       = Some (out2, Semaphore.make MAX_CONCURRENT_DOWNLOADS, tr2)
    /\ templates tr1
       = ["downloads/Me at the zoo_ _part 1_2__0123456789abcdef0123456789abcdef.%(ext)s"]
    /\ templates tr2
       = ["downloads/Me at the zoo_ _part 1_2__fedcba9876543210fedcba9876543210.%(ext)s"]
    /\ templates tr1 <> templates tr2.
Proof.
  destruct (same_title_filenames_follow_draws sample_url sample_url DOWNLOAD_DIR
              "1a2b3c4d" "5e6f7a8b" "Me at the zoo: <part 1/2>"
              (lib_ok "0123456789abcdef0123456789abcdef")
              (lib_ok "fedcba9876543210fedcba9876543210")
              (Semaphore.make MAX_CONCURRENT_DOWNLOADS)
              (Semaphore.make MAX_CONCURRENT_DOWNLOADS)
              sample_info sample_info
              eq_refl eq_refl eq_refl eq_refl eq_refl eq_refl eq_refl eq_refl)
    as (out1 & tr1 & out2 & tr2 & R1 & R2 & E1 & E2 & Hne & _).
  exists out1, tr1, out2, tr2.
  split; [exact R1 |]. split; [exact R2 |].
  split; [exact E1 |]. split; [exact E2 |].
  apply Hne. discriminate.
Defined.

(** C8, as stated, fails: two dispatches for the same title whose draws of
    [uuid.uuid4()] come out the same derive the same file name. *)
Lemma same_draw_same_filename :
  let w := lib_ok "0123456789abcdef0123456789abcdef" in
  let s := Semaphore.make MAX_CONCURRENT_DOWNLOADS in
  exists out1 tr1 out2 tr2,
    run (download_video_task sample_url DOWNLOAD_DIR "1a2b3c4d") w s
    = Some (out1, s, tr1)
    /\ run (download_video_task sample_url DOWNLOAD_DIR "5e6f7a8b") w s
       = Some (out2, s, tr2)
    /\ templates tr1
       = ["downloads/Me at the zoo_ _part 1_2__0123456789abcdef0123456789abcdef.%(ext)s"]
    /\ templates tr2 = templates tr1.
Proof.
  cbv zeta. do 4 eexists.
  split; [reflexivity |]. split; [reflexivity |]. split; reflexivity.
Qed.

(** C9. The template handed to the download is the download path joined
    with the sanitized title, an underscore, the hex digits of the draw and
    the extension placeholder. The sanitized title has the length of the
    title, carries an underscore wherever the title has one of the nine
    characters of [unsafe_chars], and the title's own character elsewhere. *)
Theorem filename_from_sanitized_title
    (youtube_url download_path request_id t : string)
    (w : collaborator) (s : Semaphore.t) (info : info_dict) :
  Semaphore.locked s = false ->
  answer w ydl_opts_info youtube_url false = inl info ->
  exceeds_limit (duration info) = false ->
  get_title info (PyStr "video") = PyStr t ->
  exists out tr sanitized_title,
    run (download_video_task youtube_url download_path request_id) w s
    = Some (out, s, tr)
    /\ templates tr
       = [path_join download_path
                    (sanitized_title ++ "_" ++ hex (drawn w) ++ ".%(ext)s")]
    /\ String.length sanitized_title = String.length t
    /\ forall n c,
         String.get n t = Some c ->
         (In c unsafe_chars -> String.get n sanitized_title = Some "_"%char)
         /\ (~ In c unsafe_chars -> String.get n sanitized_title = Some c).
Proof.
  intros L A D T.
  pose proof (WorkerFacts.run_steps_fetch youtube_url download_path request_id
                w info t A D T) as R.
  apply (WorkerFacts.run_guarded_steps _ _ _ _ _ _ _ L), RunFacts.run_task in R.
  do 2 eexists. exists (re_sub unsafe_pattern "_" t).
  split; [exact R |]. split; [reflexivity |].
  split; [apply NameFacts.re_sub_length |].
  intros n c G. apply NameFacts.re_sub_get in G. rewrite G.
  split; intros H.
  - apply NameFacts.unsafe_char_spec in H. now rewrite H.
  - destruct (unsafe_char c) eqn:E; [| reflexivity].
    apply NameFacts.unsafe_char_spec in E. contradiction.
Qed.

Lemma filename_from_sanitized_title_witness :
  exists out tr sanitized_title,
    run (download_video_task sample_url DOWNLOAD_DIR "1a2b3c4d")
        (lib_ok "0123456789abcdef0123456789abcdef")
        (Semaphore.make MAX_CONCURRENT_DOWNLOADS)
    = Some (out, Semaphore.make MAX_CONCURRENT_DOWNLOADS, tr)
    /\ templates tr
       = [path_join DOWNLOAD_DIR
                    (sanitized_title ++ "_"
                     ++ hex (drawn (lib_ok "0123456789abcdef0123456789abcdef"))
                     ++ ".%(ext)s")]
    /\ String.length sanitized_title = String.length "Me at the zoo: <part 1/2>"
    /\ forall n c,
         String.get n "Me at the zoo: <part 1/2>" = Some c ->
         (In c unsafe_chars -> String.get n sanitized_title = Some "_"%char)
         /\ (~ In c unsafe_chars -> String.get n sanitized_title = Some c).
Proof.
  apply (filename_from_sanitized_title sample_url DOWNLOAD_DIR "1a2b3c4d"
           "Me at the zoo: <part 1/2>"
           (lib_ok "0123456789abcdef0123456789abcdef")
           (Semaphore.make MAX_CONCURRENT_DOWNLOADS) sample_info);
    reflexivity.
Defined.

(** ** The handler *)

(** C5. What [POST /download] sends. An invalid URL gets status 400, a
    valid URL while the semaphore is locked status 429, and no task is
    added in either case; a valid URL otherwise gets status 202 with a body
    whose status is "processing", and one [download_video_task] for this URL
    is added. The body of the two refusals is not what the specification
    says: the dictionary with status "error" is raised as the detail of an
    [HTTPException], so it arrives under the key [detail] and the body has
    no status of its own. *)
Theorem download_video_sends
    (youtube_url : string) (tasks : list task_args) (request : Request)
    (u : uuid) (sem : Semaphore.t) :
  let h := download_video youtube_url tasks request u sem in
  let body := snd (sent (reply h)) in
  (validate youtube_url = false ->
   fst (sent (reply h)) = 400
   /\ get_field "status" body = None
   /\ (exists d, get_field "detail" body = Some d
                 /\ get_field "status" d = Some (JString "error"))
   /\ background_tasks h = tasks)
  /\ (validate youtube_url = true -> Semaphore.locked sem = true ->
      fst (sent (reply h)) = 429
      /\ get_field "status" body = None
      /\ (exists d, get_field "detail" body = Some d
                    /\ get_field "status" d = Some (JString "error"))
      /\ background_tasks h = tasks)
  /\ (validate youtube_url = true -> Semaphore.locked sem = false ->
      fst (sent (reply h)) = 202
      /\ get_field "status" body = Some (JString "processing")
      /\ background_tasks h = tasks ++ [(youtube_url, DOWNLOAD_DIR, str_prefix8 u)]).
Proof.
  cbv zeta. unfold download_video. split; [| split].
  - intros V. rewrite V. simpl. repeat split. eexists. split; reflexivity.
  - intros V L. rewrite V, L. simpl. repeat split. eexists. split; reflexivity.
  - intros V L. rewrite V, L. simpl. repeat split.
Qed.

(** At the invalid URL "not a url": status 400, and a body without
    status. *)
Lemma download_video_sends_witness :
  let h := download_video "not a url" [] {| client := Some "127.0.0.1" |}
             "1a2b3c4d5e6f47a8b9c0d1e2f3a4b5c6"
             (Semaphore.make MAX_CONCURRENT_DOWNLOADS) in
  fst (sent (reply h)) = 400
  /\ get_field "status" (snd (sent (reply h))) = None
  /\ (exists d, get_field "detail" (snd (sent (reply h))) = Some d
                /\ get_field "status" d = Some (JString "error"))
  /\ background_tasks h = [].
Proof.
  cbv zeta.
  apply (proj1 (download_video_sends "not a url" []
                  {| client := Some "127.0.0.1" |}
                  "1a2b3c4d5e6f47a8b9c0d1e2f3a4b5c6"
                  (Semaphore.make MAX_CONCURRENT_DOWNLOADS))).
  reflexivity.
Defined.

(** ** The gate under any interleaving *)
Module GateFacts.
Import Semaphore.

Lemma wake_first_some ws ws' :
  wake_first ws = Some ws' ->
  List.length (filter done ws') = S (List.length (filter done ws)).
Proof.
  revert ws'. induction ws as [| x ws IH]; intros ws'; simpl; [discriminate |].
  destruct (done x) eqn:E.
  - destruct (wake_first ws) as [ws1 |]; simpl; [| discriminate].
    intros H. injection H as <-. simpl. rewrite E. simpl. f_equal. auto.
  - intros H. injection H as <-. reflexivity.
Qed.

Lemma wake_up_next_permits s : permits (_wake_up_next s) = permits s.
Proof.
  unfold _wake_up_next, permits, woken.
  destruct (wake_first (_waiters s)) as [ws |] eqn:E; [| reflexivity].
  simpl. rewrite (wake_first_some _ _ E). lia.
Qed.

Lemma wake_up_next_value s :
  (0 < _value s)%Z -> (0 <= _value (_wake_up_next s))%Z.
Proof.
  unfold _wake_up_next.
  destruct (wake_first (_waiters s)); simpl; lia.
Qed.

Lemma release_permits s : permits (release s) = (permits s + 1)%Z.
Proof.
  unfold release. rewrite wake_up_next_permits. unfold permits, woken. simpl. lia.
Qed.

Lemma release_value s : (0 <= _value s)%Z -> (0 <= _value (release s))%Z.
Proof. intros H. apply wake_up_next_value. simpl. lia. Qed.

Lemma enter_got me s s' :
  acquire_enter me s = Got s' ->
  permits s' = (permits s - 1)%Z
  /\ ((0 <= _value s)%Z -> (0 <= _value s')%Z).
Proof.
  unfold acquire_enter. destruct (locked s) eqn:L; [discriminate |].
  intros H. injection H as <-. unfold permits, woken. simpl.
  split; [lia |].
  unfold locked in L. apply orb_false_iff in L as [L _].
  apply Z.eqb_neq in L. lia.
Qed.

Lemma enter_suspended me s s' :
  acquire_enter me s = Suspended s' ->
  permits s' = permits s /\ _value s' = _value s.
Proof.
  unfold acquire_enter. destruct (locked s); [| discriminate].
  intros H. injection H as <-. unfold permits, woken. simpl.
  rewrite filter_app. simpl. rewrite app_nil_r. auto.
Qed.

Lemma remove_done me ws :
  match find (fun w => (owner w =? me)%nat) ws with
  | Some w => done w
  | None => false
  end = true ->
  List.length (filter done ws) = S (List.length (filter done (remove_waiter me ws))).
Proof.
  induction ws as [| x ws IH]; simpl; [discriminate |].
  destruct (owner x =? me)%nat.
  - intros ->. reflexivity.
  - intros H. simpl. destruct (done x); simpl; auto.
Qed.

Lemma resume_permits me s :
  fut_done me s = true ->
  permits (acquire_resume me s) = (permits s - 1)%Z
  /\ ((0 <= _value s)%Z -> (0 <= _value (acquire_resume me s))%Z).
Proof.
  unfold fut_done, acquire_resume. intros H. apply remove_done in H.
  cbv zeta. cbn [_value].
  destruct (0 <? _value s)%Z eqn:E.
  - rewrite wake_up_next_permits. split.
    + unfold permits, woken. simpl. lia.
    + intros _. apply wake_up_next_value. simpl. apply Z.ltb_lt. exact E.
  - unfold permits, woken. simpl. split; lia.
Qed.

(** Counting over a list updated in one place. *)
Lemma count_set_nth {A : Type} (f : A -> bool) : forall (l : list A) i x y,
  nth_error l i = Some y ->
  List.length (filter f (set_nth i x l)) + b2n (f y)
  = List.length (filter f l) + b2n (f x).
Proof.
  induction l as [| z l IH]; intros i x y H; [destruct i; discriminate |].
  destruct i as [| i]; simpl in *.
  - injection H as ->. destruct (f x), (f y); simpl; lia.
  - specialize (IH i x y H). destruct (f z); simpl; lia.
Qed.

Lemma Forall_set_nth {A : Type} (P : A -> Prop) : forall (l : list A) i x,
  Forall P l -> P x -> Forall P (set_nth i x l).
Proof.
  induction l as [| z l IH]; intros i x Hl Hx; [destruct i; constructor |].
  inversion Hl; subst. destruct i; simpl; constructor; auto.
Qed.

Lemma Forall_nth_error {A : Type} (P : A -> Prop) (l : list A) i x :
  Forall P l -> nth_error l i = Some x -> P x.
Proof.
  intros H E. rewrite Forall_forall in H. eapply H, nth_error_In, E.
Qed.

Lemma count_le {A : Type} (f g : A -> bool) (l : list A) :
  Forall (fun x => f x = true -> g x = true) l ->
  List.length (filter f l) <= List.length (filter g l).
Proof.
  induction 1 as [| x l Hx _ IH]; simpl; [lia |].
  destruct (f x) eqn:E.
  - rewrite (Hx eq_refl). simpl. lia.
  - destruct (g x); simpl; lia.
Qed.

(** The worker's code is bracketed. *)
Lemma critical_guarded {A B : Type} (p : prog A) (f : A -> prog B) :
  gate_free p -> (forall r, exists b, f r = Ret b) ->
  critical (bind (bind p (fun r => Release (Ret r))) f).
Proof.
  intros Hp Hf. induction Hp as [a | o u d k _ IH | k _ IH]; simpl.
  - destruct (Hf a) as [b ->]. constructor.
  - constructor. exact IH.
  - constructor. exact IH.
Qed.

Lemma task_bracketed youtube_url download_path request_id :
  bracketed (download_video_task youtube_url download_path request_id).
Proof.
  unfold download_video_task, try_except, guarded_download, async_with_semaphore.
  cbn [bind]. constructor. apply critical_guarded.
  - apply RunFacts.download_steps_gate_free.
  - intros [a | e]; [eexists; reflexivity | apply RunFacts.on_exception_returns].
Qed.

Lemma spawn_ok l a : worker_ok (spawn l a) /\ holds (spawn l a) = false.
Proof.
  destruct a as [[youtube_url download_path] request_id].
  unfold worker_ok. cbn [holds spawn code acquired released].
  split; [| reflexivity]. split; [apply task_bracketed |].
  unfold download_video_task, try_except, guarded_download, async_with_semaphore.
  cbn [bind]. auto.
Qed.


(** One step of a coroutine keeps its code in line with its record, and
    moves one permit between the gate and the coroutine, or none. *)
Lemma step_worker_ok i w g w' g' :
  worker_ok w -> (0 <= _value g)%Z ->
  step_worker i w g = Some (w', g') ->
  worker_ok w' /\ (0 <= _value g')%Z
  /\ (permits g' + Z.of_nat (b2n (holds w')) = permits g + Z.of_nat (b2n (holds w)))%Z.
Proof.
  unfold worker_ok, step_worker. intros Hok Hv Hstep.
  destruct (code w) as [a | k | k | o u d k | k] eqn:C; [discriminate | | | |].
  - (* about to acquire, or suspended in it *)
    destruct (holds w) eqn:Hh; [destruct Hok as [Hc _]; inversion Hc |].
    destruct Hok as [Hb [Hacq Hrel]].
    inversion Hb as [| k' Hk]; subst k'.
    destruct (awaiting w).
    + destruct (fut_done i g) eqn:F; [| discriminate].
      injection Hstep as <- <-. simpl.
      destruct (resume_permits i g F) as [Hp Hv'].
      split; [rewrite Hacq; auto |]. split; [auto |]. lia.
    + destruct (acquire_enter i g) as [g1 | g1] eqn:E; injection Hstep as <- <-; simpl.
      * destruct (enter_got i g g1 E) as [Hp Hv'].
        split; [rewrite Hacq; auto |]. split; [auto |]. lia.
      * destruct (enter_suspended i g g1 E) as [Hp Hv'].
        split; [split; [constructor; exact Hk | auto] |]. split; lia.
  - (* about to release *)
    destruct (holds w) eqn:Hh; [| destruct Hok as [Hb _]; inversion Hb].
    destruct Hok as (Hc & _ & Hacq & Hrel). inversion Hc; subst.
    injection Hstep as <- <-. simpl.
    split; [split; [constructor | rewrite Hrel; auto] |].
    split; [apply release_value; exact Hv |].
    rewrite release_permits. lia.
  - (* inside a call of the library *)
    destruct (holds w) eqn:Hh; [| destruct Hok as [Hb _]; inversion Hb].
    destruct Hok as (Hc & Ha & Hacq & Hrel).
    inversion Hc as [| ? ? ? ? Hk |]; subst.
    injection Hstep as <- <-. simpl.
    split; [auto |]. split; [exact Hv | reflexivity].
  - (* drawing a UUID *)
    destruct (holds w) eqn:Hh; [| destruct Hok as [Hb _]; inversion Hb].
    destruct Hok as (Hc & Ha & Hacq & Hrel).
    inversion Hc as [| | ? Hk]; subst.
    injection Hstep as <- <-. simpl.
    split; [auto |]. split; [exact Hv | reflexivity].
Qed.

Lemma download_video_semaphore youtube_url tasks request u sem :
  download_semaphore (download_video youtube_url tasks request u sem) = sem.
Proof.
  unfold download_video.
  destruct (negb (validate youtube_url)); [reflexivity |].
  destruct (locked sem); reflexivity.
Qed.

Lemma spawned_hold_nothing l ts : filter holds (map (spawn l) ts) = [].
Proof.
  induction ts as [| a ts IH]; [reflexivity |].
  simpl. rewrite (proj2 (spawn_ok l a)). exact IH.
Qed.

Lemma post_holders st youtube_url request u l st' :
  act (Post youtube_url request u l) st = Some st' ->
  gate st' = gate st /\ holders st' = holders st.
Proof.
  simpl. intros H. injection H as <-. simpl.
  split; [apply download_video_semaphore |].
  unfold holders. simpl.
  rewrite filter_app, spawned_hold_nothing, app_nil_r. reflexivity.
Qed.

Lemma boot_invariant K : (0 <= K)%Z -> invariant K (boot K).
Proof.
  intros H. unfold invariant, boot, permits, woken, holders. simpl.
  repeat split; [exact H | lia | constructor].
Qed.

Lemma act_invariant K a st st' :
  invariant K st -> act a st = Some st' -> invariant K st'.
Proof.
  intros (Hv & Hp & Hw) Hact. destruct a as [youtube_url request u l | i].
  - destruct (post_holders _ _ _ _ _ _ Hact) as [Hg Hh].
    unfold invariant. rewrite Hg, Hh. repeat split; [exact Hv | exact Hp |].
    simpl in Hact. injection Hact as <-. simpl.
    apply Forall_app. split; [exact Hw |].
    apply Forall_forall. intros w Hin. apply in_map_iff in Hin as (a & <- & _).
    apply spawn_ok.
  - simpl in Hact.
    destruct (nth_error (workers st) i) as [w |] eqn:E; [| discriminate].
    destruct (step_worker i w (gate st)) as [[w' g'] |] eqn:S; [| discriminate].
    injection Hact as <-.
    destruct (step_worker_ok i w (gate st) w' g'
                (Forall_nth_error _ _ _ _ Hw E) Hv S) as (Hok & Hv' & Hp').
    unfold invariant, holders in *. simpl.
    pose proof (count_set_nth holds (workers st) i w' w E) as Hc.
    repeat split; [exact Hv' | lia | apply Forall_set_nth; assumption].
Qed.

Lemma reachable_invariant K st :
  (0 <= K)%Z -> reachable K st -> invariant K st.
Proof.
  intros HK. induction 1 as [| st a st' _ IH Hact].
  - apply boot_invariant, HK.
  - exact (act_invariant K a st st' IH Hact).
Qed.

Lemma play_reachable K acts : forall st st',
  reachable K st -> play acts st = Some st' -> reachable K st'.
Proof.
  induction acts as [| a acts IH]; intros st st' Hr Hp; simpl in Hp.
  - injection Hp as <-. exact Hr.
  - destruct (act a st) as [st1 |] eqn:E; [| discriminate].
    apply (IH st1); [| exact Hp]. exact (reach_act K st a st1 Hr E).
Qed.

Lemma fetching_holds w : worker_ok w -> in_fetch w = true -> holds w = true.
Proof.
  unfold worker_ok, in_fetch. destruct (holds w); [reflexivity |].
  destruct (code w); intros [Hb _] Hf; solve [discriminate Hf | inversion Hb].
Qed.

(** The counts of a coroutine: at most one acquisition, never more releases
    than acquisitions, the difference being the slot it holds, and one of
    each when it has returned. *)
Lemma worker_ledger w :
  worker_ok w ->
  released w <= acquired w <= 1
  /\ b2n (holds w) = acquired w - released w
  /\ (forall r, code w = Ret r -> acquired w = 1 /\ released w = 1).
Proof.
  unfold worker_ok. destruct (holds w).
  - intros (Hc & _ & Ha & Hr). rewrite Ha, Hr.
    split; [lia |]. split; [reflexivity |].
    intros r E. rewrite E in Hc. inversion Hc.
  - intros [_ H].
    destruct (code w); destruct H as [Ha Hr]; rewrite Ha, Hr;
      (split; [lia |]); (split; [reflexivity |]);
      intros r E; solve [discriminate E | auto].
Qed.

(** When all [K] slots are held the counter is zero, so [locked()] answers
    true and the handler turns a valid request away. *)
Lemma saturated_gate_locked K st :
  (0 <= K)%Z -> reachable K st ->
  Z.of_nat (holders st) = K -> locked (gate st) = true.
Proof.
  intros HK Hr Hfull.
  destruct (reachable_invariant K st HK Hr) as (Hv & Hp & _).
  unfold permits in Hp. unfold locked.
  replace (_value (gate st)) with 0%Z by lia. reflexivity.
Qed.

Lemma saturated_post_refused K st youtube_url request u l :
  (0 <= K)%Z -> reachable K st -> Z.of_nat (holders st) = K ->
  validate youtube_url = true ->
  code_of (reply (download_video youtube_url [] request u (gate st))) = 429
  /\ act (Post youtube_url request u l) st = Some st.
Proof.
  intros HK Hr Hfull Hvalid.
  pose proof (saturated_gate_locked K st HK Hr Hfull) as L.
  unfold act, download_video. rewrite Hvalid, L. simpl.
  rewrite app_nil_r. destruct st; auto.
Qed.

End GateFacts.

(** C1. In every state the application reaches from its start with a
    semaphore of [K] permits, whatever requests arrive and however the
    coroutines interleave, at most [K] coroutines hold a slot, and every
    coroutine inside a downloading call of [extract_info] is one of them. *)
Theorem at_most_K_concurrent_downloads (K : Z) (st : system) :
  (0 <= K)%Z ->
  reachable K st ->
  (Z.of_nat (holders st) <= K)%Z /\ fetching st <= holders st.
Proof.
  intros HK Hr.
  destruct (GateFacts.reachable_invariant K st HK Hr) as (Hv & Hp & Hw).
  split.
  - unfold permits in Hp. lia.
  - apply GateFacts.count_le. revert Hw. apply Forall_impl.
    exact GateFacts.fetching_holds.
Qed.

Lemma at_most_K_concurrent_downloads_witness :
  exists st,
    play rush (boot MAX_CONCURRENT_DOWNLOADS) = Some st
    /\ List.length (workers st) = 5
    /\ fetching st = 3
    /\ (Z.of_nat (holders st) <= MAX_CONCURRENT_DOWNLOADS)%Z
    /\ fetching st <= holders st.
Proof.
  assert (E : exists st, play rush (boot MAX_CONCURRENT_DOWNLOADS) = Some st
                         /\ List.length (workers st) = 5 /\ fetching st = 3).
  { vm_compute. eexists. repeat split. }
  destruct E as (st & E & H5 & H3).
  exists st.
  split; [exact E |]. split; [exact H5 |]. split; [exact H3 |].
  apply (at_most_K_concurrent_downloads MAX_CONCURRENT_DOWNLOADS st).
  - discriminate.
  - exact (GateFacts.play_reachable _ rush _ _ (reach_boot _) E).
Defined.

(** C6. The handler hands the semaphore back as it received it on each of
    its three paths, and a request changes neither the gate of the running
    application nor the number of coroutines that hold a slot. *)
Theorem download_video_leaves_gate :
  (forall youtube_url tasks request u sem,
      download_semaphore (download_video youtube_url tasks request u sem) = sem)
  /\ (forall st youtube_url request u l,
         option_map (fun st' => (gate st', holders st'))
                    (act (Post youtube_url request u l) st)
         = Some (gate st, holders st)).
Proof.
  assert (H : forall youtube_url tasks request u sem,
             download_semaphore (download_video youtube_url tasks request u sem) = sem).
  { intros. unfold download_video.
    destruct (negb (validate youtube_url)); [reflexivity |].
    destruct (Semaphore.locked sem); reflexivity. }
  split; [exact H |].
  intros st youtube_url request u l. simpl. rewrite H. do 2 f_equal.
  unfold holders. simpl. rewrite filter_app, length_app.
  replace (filter holds (map (spawn l) _)) with (@nil worker); [simpl; lia |].
  symmetry. induction (background_tasks _) as [| [[a b] c] ts IH]; [reflexivity |].
  simpl. exact IH.
Qed.

(** C2. A worker that finds a free slot acquires once and releases once,
    however its guarded block ends: with an outcome returned by the block,
    with an exception that an [except] clause turns into an outcome, or with
    an exception that leaves the worker; the gate is then exactly as it was
    before the acquisition, after having held one permit less in between.
    And under any interleaving, also for a worker that had to wait for its
    slot: a worker never acquires twice, never releases what it has not
    acquired, holds a slot exactly while it has acquired and not released,
    and has acquired once and released once when it has returned. *)
Theorem worker_releases_exactly_once :
  (forall (youtube_url download_path request_id : string)
          (w : collaborator) (s : Semaphore.t),
      Semaphore.locked s = false ->
      exists out mid,
        run (download_video_task youtube_url download_path request_id) w s
        = Some (out, s, EvAcquire :: mid ++ [EvRelease])
        /\ count is_acquire (EvAcquire :: mid ++ [EvRelease]) = 1
        /\ count is_release (EvAcquire :: mid ++ [EvRelease]) = 1
        /\ exists s_held,
             Semaphore.acquire_enter 0 s = Semaphore.Got s_held
             /\ Semaphore._value s_held = (Semaphore._value s - 1)%Z
             /\ Semaphore.release s_held = s)
  /\ (forall (K : Z) (st : system) (w : worker),
         (0 <= K)%Z -> reachable K st -> In w (workers st) ->
         released w <= acquired w <= 1
         /\ b2n (holds w) = acquired w - released w
         /\ (forall r, code w = Ret r -> acquired w = 1 /\ released w = 1)).
Proof.
  split.
  - intros youtube_url download_path request_id w s H.
    destruct (RunFacts.run_guarded youtube_url download_path request_id w s H)
      as (r & mid & _ & Hq & Hrun).
    apply RunFacts.run_task in Hrun.
    eexists; exists mid. split; [exact Hrun |].
    apply RunFacts.quiet_counts in Hq as [Ha Hr].
    change (EvAcquire :: mid ++ [EvRelease])
      with ([EvAcquire] ++ mid ++ [EvRelease]).
    rewrite !RunFacts.count_app, Ha, Hr. repeat split; try reflexivity.
    destruct (RunFacts.enter_unlocked 0 s H) as (s' & E & Hrel & Hv). eauto.
  - intros K st w HK Hr Hin.
    destruct (GateFacts.reachable_invariant K st HK Hr) as (_ & _ & Hw).
    rewrite Forall_forall in Hw. apply GateFacts.worker_ledger, Hw, Hin.
Qed.

Lemma worker_releases_exactly_once_witness :
  (exists out mid,
      run (download_video_task sample_url DOWNLOAD_DIR "1a2b3c4d")
          (lib_failing_fetch {| exc_type := DownloadError; exc_str := "HTTP Error 403" |}
                             "0123456789abcdef0123456789abcdef")
          (Semaphore.make MAX_CONCURRENT_DOWNLOADS)
      = Some (out, Semaphore.make MAX_CONCURRENT_DOWNLOADS,
              EvAcquire :: mid ++ [EvRelease])
      /\ count is_acquire (EvAcquire :: mid ++ [EvRelease]) = 1
      /\ count is_release (EvAcquire :: mid ++ [EvRelease]) = 1)
  /\ (exists st w r,
         play relay (boot MAX_CONCURRENT_DOWNLOADS) = Some st
         /\ nth_error (workers st) 3 = Some w
         /\ code w = Ret r
         /\ acquired w = 1 /\ released w = 1).
Proof.
  split.
  - destruct (proj1 worker_releases_exactly_once sample_url DOWNLOAD_DIR "1a2b3c4d"
                (lib_failing_fetch
                   {| exc_type := DownloadError; exc_str := "HTTP Error 403" |}
                   "0123456789abcdef0123456789abcdef")
                (Semaphore.make MAX_CONCURRENT_DOWNLOADS) eq_refl)
      as (out & mid & Hrun & Ha & Hr & _).
    exists out, mid. auto.
  - assert (E : exists st w r,
               play relay (boot MAX_CONCURRENT_DOWNLOADS) = Some st
               /\ nth_error (workers st) 3 = Some w /\ code w = Ret r).
    { vm_compute. do 3 eexists. split; [reflexivity |]. split; reflexivity. }
    destruct E as (st & w & r & E & Hn & Hc).
    exists st, w, r. split; [exact E |]. split; [exact Hn |]. split; [exact Hc |].
    assert (HK : (0 <= MAX_CONCURRENT_DOWNLOADS)%Z) by discriminate.
    exact (proj2 (proj2 (proj2 worker_releases_exactly_once
                           MAX_CONCURRENT_DOWNLOADS st w HK
                           (GateFacts.play_reachable _ relay _ _ (reach_boot _) E)
                           (nth_error_In _ _ Hn)))
                 r Hc).
Defined.

(** * Further properties *)

(** ** The validator, beyond the claims *)
Module ValidatorMore.
Import ReFacts ValidatorFacts.

Lemma chars_unchars l : chars (unchars l) = l.
Proof. apply list_ascii_of_string_of_list_ascii. Qed.

Lemma unchars_chars s : unchars (chars s) = s.
Proof. apply string_of_list_ascii_of_string. Qed.

Lemma unchars_app a b : unchars (a ++ b) = (unchars a ++ unchars b)%string.
Proof. induction a as [| c a IH]; simpl; [reflexivity | f_equal; exact IH]. Qed.

Lemma chars_eq_inv s l : chars s = l -> s = unchars l.
Proof. intros <-. symmetry. apply unchars_chars. Qed.

Lemma host_prefix_lang (h : string) :
  lang host_part (chars h) <-> In h host_prefixes.
Proof.
  rewrite host_words. split.
  - intros (u & v & w & E & Hu & Hv & Hw).
    apply chars_eq_inv in E. subst h.
    destruct Hu as [-> | [-> | ->]], Hv as [-> | ->], Hw as [-> | ->];
      vm_compute; tauto.
  - unfold host_prefixes. intros H.
    repeat (destruct H as [<- | H]); [.. | destruct H].
    + exists [], [], (chars "youtube.com"). auto 10.
    + exists [], [], (chars "youtu.be"). auto 10.
    + exists [], (chars "www."), (chars "youtube.com"). auto 10.
    + exists [], (chars "www."), (chars "youtu.be"). auto 10.
    + exists (chars "http://"), [], (chars "youtube.com"). auto 10.
    + exists (chars "http://"), [], (chars "youtu.be"). auto 10.
    + exists (chars "http://"), (chars "www."), (chars "youtube.com"). auto 10.
    + exists (chars "http://"), (chars "www."), (chars "youtu.be"). auto 10.
    + exists (chars "https://"), [], (chars "youtube.com"). auto 10.
    + exists (chars "https://"), [], (chars "youtu.be"). auto 10.
    + exists (chars "https://"), (chars "www."), (chars "youtube.com"). auto 10.
    + exists (chars "https://"), (chars "www."), (chars "youtu.be"). auto 10.
Qed.

Lemma marker_lang (m : string) :
  lang marker_part (chars m) <->
  In m fixed_markers
  \/ exists x : string,
       x <> EmptyString /\ single_line x = true /\ m = (x ++ "?v=")%string.
Proof.
  rewrite marker_words. unfold fixed_markers, single_line. split.
  - intros [E | [E | [E | [E | (x & Hn & Hx & E)]]]];
      apply chars_eq_inv in E; subst m.
    + left. vm_compute. tauto.
    + left. vm_compute. tauto.
    + left. vm_compute. tauto.
    + left. vm_compute. tauto.
    + right. exists (unchars x). rewrite chars_unchars, unchars_app.
      repeat split; [| exact Hx].
      intros E. apply Hn. apply (f_equal chars) in E.
      rewrite chars_unchars in E. exact E.
  - intros [H | (x & Hn & Hx & ->)].
    + repeat (destruct H as [<- | H]); [.. | destruct H]; auto.
    + do 4 right. exists (chars x). rewrite chars_app.
      repeat split; [| exact Hx].
      intros E. apply Hn. apply NameFacts.chars_inj. exact E.
Qed.

Lemma id_char_not_newline i :
  forallb id_char i = true -> forallb not_newline i = true.
Proof.
  induction i as [| c i IH]; simpl; [reflexivity |].
  intros H. apply andb_true_iff in H as [Hc Hi]. rewrite (IH Hi), andb_true_r.
  unfold not_newline. destruct (Ascii.eqb c newline) eqn:E; [| reflexivity].
  apply Ascii.eqb_eq in E. subst c. discriminate Hc.
Qed.

(** The pattern in front of [$] never reads a newline. *)
Lemma body_single_line body :
  lang youtube_regex body -> forallb not_newline body = true.
Proof.
  intros H.
  apply youtube_regex_words in H as (h & m & i & t & -> & Hh & Hm & [_ Hi] & Ht).
  rewrite !forallb_app, Ht, (id_char_not_newline i Hi), !andb_true_r.
  apply andb_true_iff. split.
  - apply host_words in Hh as (u & v & w & -> & Hu & Hv & Hw).
    destruct Hu as [-> | [-> | ->]], Hv as [-> | ->], Hw as [-> | ->];
      reflexivity.
  - apply marker_words in Hm as [-> | [-> | [-> | [-> | (x & _ & Hx & ->)]]]];
      try reflexivity.
    rewrite forallb_app, Hx. reflexivity.
Qed.

(** A string without a newline that the validator accepts is matched up
    to its end. *)
Lemma validate_single_line url :
  validate url = true -> single_line url = true ->
  lang youtube_regex (chars url).
Proof.
  intros V S. apply validate_lang in V as (body & nl & E & Hb & [-> | ->]).
  - rewrite app_nil_r in E. rewrite E. exact Hb.
  - unfold single_line in S. rewrite E, forallb_app in S.
    apply andb_true_iff in S as [_ S]. discriminate S.
Qed.

End ValidatorMore.

(** X1. The validator accepts exactly the strings made of one of the
    twelve host prefixes, then nothing or [watch?v=] or [embed/] or [v/] or
    any non-empty run without a newline followed by [?v=], then eleven
    characters of the identifier class, then any characters but a newline,
    and at the very end possibly one newline. *)
Theorem validate_exactly (url : string) :
  validate url = true <->
  exists h m i t nl : string,
    url = (h ++ m ++ i ++ t ++ nl)%string
    /\ In h host_prefixes
    /\ (In m fixed_markers
        \/ exists x : string,
             x <> EmptyString /\ single_line x = true /\ m = (x ++ "?v=")%string)
    /\ String.length i = 11 /\ forallb id_char (chars i) = true
    /\ single_line t = true
    /\ (nl = EmptyString \/ nl = line_feed).
Proof.
  rewrite ValidatorFacts.validate_iff. split.
  - intros (h & m & i & t & nl & E & Hh & Hm & [Hl Hi] & Ht & Hnl).
    exists (unchars h), (unchars m),
           (unchars i), (unchars t),
           (unchars nl).
    rewrite <- ValidatorMore.host_prefix_lang, <- ValidatorMore.marker_lang.
    unfold single_line.
    rewrite <- ValidatorFacts.chars_length, !ValidatorMore.chars_unchars.
    rewrite <- !ValidatorMore.unchars_app.
    split; [apply ValidatorMore.chars_eq_inv, E |].
    repeat split; try assumption.
    destruct Hnl as [-> | ->]; [left | right]; reflexivity.
  - intros (h & m & i & t & nl & -> & Hh & Hm & Hl & Hi & Ht & Hnl).
    exists (chars h), (chars m), (chars i), (chars t), (chars nl).
    rewrite !ValidatorFacts.chars_app.
    rewrite ValidatorMore.host_prefix_lang, ValidatorMore.marker_lang.
    rewrite ValidatorFacts.chars_length.
    repeat split; try assumption.
    destruct Hnl as [-> | ->]; [left | right]; reflexivity.
Qed.

(** X2. In a string the validator accepts, a newline can only be the last
    character; and a one-line string it accepts is still accepted with one
    newline added at its end, because [$] also holds before a final
    newline. *)
Theorem validate_newline_only_last (url : string) :
  validate url = true ->
  (exists body : string,
      single_line body = true
      /\ (url = body \/ url = (body ++ line_feed)%string))
  /\ (single_line url = true -> validate (url ++ line_feed) = true).
Proof.
  intros V. split.
  - apply ValidatorFacts.validate_lang in V as (body & nl & E & Hb & Hnl).
    exists (unchars body). unfold single_line.
    rewrite ValidatorMore.chars_unchars.
    split; [apply ValidatorMore.body_single_line, Hb |].
    apply ValidatorMore.chars_eq_inv in E. rewrite E.
    destruct Hnl as [-> | ->]; [left | right].
    + now rewrite app_nil_r.
    + now rewrite ValidatorMore.unchars_app.
  - intros S. apply ValidatorFacts.validate_lang.
    exists (chars url), [newline]. rewrite ValidatorFacts.chars_app.
    repeat split; [| now right].
    apply ValidatorMore.validate_single_line; assumption.
Qed.

Lemma validate_newline_only_last_witness :
  (exists body : string,
      single_line body = true
      /\ (sample_url = body \/ sample_url = (body ++ line_feed)%string))
  /\ (single_line sample_url = true -> validate (sample_url ++ line_feed) = true).
Proof.
  apply validate_newline_only_last. reflexivity.
Defined.

(** X3. The validator looks at the front of the string only: a one-line
    string it accepts is still accepted with any one-line text appended. *)
Theorem validate_ignores_what_follows (url extra : string) :
  validate url = true ->
  single_line url = true ->
  single_line extra = true ->
  validate (url ++ extra) = true.
Proof.
  intros V S Sx.
  pose proof (ValidatorMore.validate_single_line url V S) as H.
  apply ValidatorFacts.youtube_regex_words in H
    as (h & m & i & t & E & Hh & Hm & Hi & Ht).
  apply ValidatorFacts.validate_lang.
  exists (chars (url ++ extra)), []. rewrite app_nil_r.
  repeat split; [| now left].
  apply ValidatorFacts.youtube_regex_words.
  exists h, m, i, (t ++ chars extra).
  rewrite ValidatorFacts.chars_app, E, <- !app_assoc.
  repeat split; try assumption; try tauto.
  rewrite forallb_app, Ht. exact Sx.
Qed.

Lemma validate_ignores_what_follows_witness :
  validate (sample_url ++ "&list=PL0123456789&index=2 anything <at> all") = true.
Proof.
  apply validate_ignores_what_follows; reflexivity.
Defined.

(** ** The worker, path by path *)
Module WorkerMore.
Import RunFacts WorkerFacts.

Lemma run_settled youtube_url download_path request_id w s r mid :
  Semaphore.locked s = false ->
  (forall s0, run (download_steps youtube_url download_path request_id) w s0
              = Some (r, s0, mid)) ->
  run (download_video_task youtube_url download_path request_id) w s
  = Some (settled r, s, EvAcquire :: mid ++ [EvRelease]).
Proof.
  intros L H.
  apply (run_guarded_steps _ _ _ _ _ _ _ L), run_task in H. exact H.
Qed.

(** Every run from a free gate, by what the library answers. *)
Lemma run_paths youtube_url download_path request_id w s :
  Semaphore.locked s = false ->
  let task := download_video_task youtube_url download_path request_id in
  match answer w ydl_opts_info youtube_url false with
  | inr e => run task w s = Some (settled (inr e), s, short_run youtube_url)
  | inl info =>
      if exceeds_limit (duration info) then
        run task w s
        = Some (inl {| status := "error";
                       message := "Video duration exceeds the allowed limit." |},
                s, short_run youtube_url)
      else
        match get_title info (PyStr "video") with
        | PyNone =>
            run task w s
            = Some (inl {| status := "error";
                           message := "An unexpected error occurred during download. Please try again later." |},
                    s, short_run youtube_url)
        | PyStr t =>
            let tpl := template_of download_path t (drawn w) in
            run task w s
            = Some (match answer w (ydl_opts tpl) youtube_url true with
                    | inl info' =>
                        inl {| status := "success";
                               message := "Successfully downloaded "
                                          ++ py_str (get_title info' PyNone) |}
                    | inr e => settled (inr e)
                    end, s, long_run youtube_url tpl)
        end
  end.
Proof.
  intros L. cbv zeta.
  destruct (answer w ydl_opts_info youtube_url false) as [info | e] eqn:A.
  - destruct (exceeds_limit (duration info)) eqn:D.
    + exact (run_settled _ _ _ _ _ _ _ L (run_steps_long _ _ _ _ _ A D)).
    + destruct (get_title info (PyStr "video")) as [| t] eqn:T.
      * exact (run_settled _ _ _ _ _ _ _ L (run_steps_bad_title _ _ _ _ _ A D T)).
      * pose proof (run_settled _ _ _ _ _ _ _ L
                      (run_steps_fetch _ download_path request_id _ _ _ A D T)) as R.
        rewrite R. unfold long_run. cbn [app].
        destruct (answer w _ youtube_url true); reflexivity.
  - exact (run_settled _ _ _ _ _ _ _ L (run_steps_probe_fails _ _ _ _ _ A)).
Qed.

Lemma run_locked youtube_url download_path request_id w s :
  Semaphore.locked s = true ->
  run (download_video_task youtube_url download_path request_id) w s = None.
Proof.
  intros L. unfold download_video_task, try_except, guarded_download,
    async_with_semaphore. cbn [bind run].
  unfold Semaphore.acquire_enter. rewrite L. reflexivity.
Qed.

Lemma exceeds_limit_iff d :
  exceeds_limit d = true <->
  exists n, d = Some n /\ (MAX_VIDEO_DURATION_SECONDS < n)%Z.
Proof.
  unfold exceeds_limit, MAX_VIDEO_DURATION_SECONDS. split.
  - destruct d as [n |]; [| discriminate]. intros H.
    apply andb_true_iff in H as [_ H]. apply Z.ltb_lt in H. eauto.
  - intros (n & -> & H). apply andb_true_iff. split.
    + apply negb_true_iff, Z.eqb_neq. lia.
    + apply Z.ltb_lt. exact H.
Qed.

Lemma re_sub_chars t c :
  In c (chars (re_sub unsafe_pattern "_" t)) -> unsafe_char c = false.
Proof.
  induction t as [| d t IH]; [simpl; tauto |].
  cbn [re_sub]. rewrite NameFacts.accepts_unsafe.
  destruct (unsafe_char d) eqn:E; simpl.
  - intros [<- | H]; [reflexivity | auto].
  - intros [<- | H]; [exact E | auto].
Qed.

Lemma re_sub_safe t :
  forallb (fun c => negb (unsafe_char c)) (chars t) = true ->
  re_sub unsafe_pattern "_" t = t.
Proof.
  induction t as [| d t IH]; [reflexivity |].
  cbn [chars list_ascii_of_string forallb]. intros H.
  apply andb_true_iff in H as [Hd Ht].
  cbn [re_sub]. rewrite NameFacts.accepts_unsafe.
  apply negb_true_iff in Hd. rewrite Hd. simpl. f_equal. auto.
Qed.

Lemma hex_digit_safe c : is_hex_digit c = true -> unsafe_char c = false.
Proof.
  intros H. destruct (unsafe_char c) eqn:E; [| reflexivity].
  apply NameFacts.unsafe_char_spec in E. unfold unsafe_chars in E.
  repeat (destruct E as [<- | E]); try discriminate H. destruct E.
Qed.

End WorkerMore.

(** X5. The sanitized title contains none of the nine characters of the
    pattern; a title without them is left as it is; and sanitizing twice is
    sanitizing once. *)
Theorem sanitized_title_is_safe (t : string) :
  (forall c, In c (chars (re_sub unsafe_pattern "_" t)) -> ~ In c unsafe_chars)
  /\ ((forall c, In c (chars t) -> ~ In c unsafe_chars) ->
      re_sub unsafe_pattern "_" t = t)
  /\ re_sub unsafe_pattern "_" (re_sub unsafe_pattern "_" t)
     = re_sub unsafe_pattern "_" t.
Proof.
  assert (safe : forall s : string,
             (forall c, In c (chars s) -> unsafe_char c = false) ->
             re_sub unsafe_pattern "_" s = s).
  { intros s H. apply WorkerMore.re_sub_safe. apply forallb_forall.
    intros c Hc. now rewrite (H c Hc). }
  split; [| split].
  - intros c Hc Hin. apply NameFacts.unsafe_char_spec in Hin.
    rewrite (WorkerMore.re_sub_chars t c Hc) in Hin. discriminate.
  - intros H. apply safe. intros c Hc.
    destruct (unsafe_char c) eqn:E; [| reflexivity].
    apply NameFacts.unsafe_char_spec in E. elim (H c Hc E).
  - apply safe. intros c. apply WorkerMore.re_sub_chars.
Qed.

Lemma sanitized_title_is_safe_witness :
  re_sub unsafe_pattern "_" "Me at the zoo" = "Me at the zoo".
Proof.
  apply (proj1 (proj2 (sanitized_title_is_safe "Me at the zoo"))).
  intros c Hc Hu. apply NameFacts.unsafe_char_spec in Hu.
  simpl in Hc. repeat (destruct Hc as [<- | Hc]; [discriminate Hu |]).
  destruct Hc.
Defined.

(** X6. With the download directory of the handler, the template handed
    to the download is [downloads/] followed by a file name without a slash
    and without a backslash, whatever the reported title, as long as the
    draw consists of hex digits: the title cannot move the file out of the
    directory. *)
Theorem download_stays_in_directory
    (youtube_url request_id t : string)
    (w : collaborator) (s : Semaphore.t) (info : info_dict) :
  Semaphore.locked s = false ->
  answer w ydl_opts_info youtube_url false = inl info ->
  exceeds_limit (duration info) = false ->
  get_title info (PyStr "video") = PyStr t ->
  forallb is_hex_digit (chars (drawn w)) = true ->
  exists out tr name,
    run (download_video_task youtube_url DOWNLOAD_DIR request_id) w s
    = Some (out, s, tr)
    /\ templates tr = [("downloads/" ++ name)%string]
    /\ ~ In "/"%char (chars name)
    /\ ~ In backslash (chars name).
Proof.
  intros L A D T Hx.
  pose proof (WorkerMore.run_paths youtube_url DOWNLOAD_DIR request_id w s L) as R.
  cbv zeta in R. rewrite A, D, T in R.
  do 2 eexists. exists (unique_filename (re_sub unsafe_pattern "_" t) (drawn w)).
  split; [exact R |].
  split.
  { unfold long_run, template_of, path_join. cbn [templates ydl_opts outtmpl].
    rewrite NameFacts.unique_filename_relative. reflexivity. }
  assert (safe : forall c,
             In c (chars (unique_filename (re_sub unsafe_pattern "_" t) (drawn w))) ->
             unsafe_char c = false).
  { intros c. unfold unique_filename, hex.
    rewrite !ValidatorFacts.chars_app, !in_app_iff.
    intros [H | [H | [H | H]]].
    - exact (WorkerMore.re_sub_chars t c H).
    - destruct H as [<- | []]. reflexivity.
    - apply WorkerMore.hex_digit_safe.
      rewrite forallb_forall in Hx. exact (Hx c H).
    - simpl in H. repeat (destruct H as [<- | H]); try reflexivity. destruct H. }
  split; intros H; apply safe in H; discriminate H.
Qed.

Lemma download_stays_in_directory_witness :
  exists out tr name,
    run (download_video_task sample_url DOWNLOAD_DIR "1a2b3c4d")
        (lib_ok "0123456789abcdef0123456789abcdef")
        (Semaphore.make MAX_CONCURRENT_DOWNLOADS)
    = Some (out, Semaphore.make MAX_CONCURRENT_DOWNLOADS, tr)
    /\ templates tr = [("downloads/" ++ name)%string]
    /\ ~ In "/"%char (chars name)
    /\ ~ In backslash (chars name).
Proof.
  apply (download_stays_in_directory sample_url "1a2b3c4d"
           "Me at the zoo: <part 1/2>"
           (lib_ok "0123456789abcdef0123456789abcdef")
           (Semaphore.make MAX_CONCURRENT_DOWNLOADS) sample_info);
    reflexivity.
Defined.

(** X7. A probe that raises ends the dispatch at once: the run is
    acquire, probe, release, without a draw and without a download, and for
    a [DownloadError] the outcome is the error whose message carries the
    text of the exception. *)
Theorem failed_probe_is_terminal
    (youtube_url download_path request_id : string)
    (w : collaborator) (s : Semaphore.t) (e : exn) :
  Semaphore.locked s = false ->
  answer w ydl_opts_info youtube_url false = inr e ->
  exists out,
    run (download_video_task youtube_url download_path request_id) w s
    = Some (out, s, [EvAcquire; EvExtractInfo ydl_opts_info youtube_url false;
                     EvRelease])
    /\ (exc_type e = DownloadError ->
        out = inl {| status := "error";
                     message := "Failed to download video: " ++ exc_str e |}).
Proof.
  intros L A.
  pose proof (WorkerMore.run_paths youtube_url download_path request_id w s L) as R.
  cbv zeta in R. rewrite A in R.
  eexists. split; [exact R |].
  intros C. simpl. rewrite C. reflexivity.
Qed.

Lemma failed_probe_is_terminal_witness :
  exists out,
    run (download_video_task sample_url DOWNLOAD_DIR "1a2b3c4d")
        (lib_failing_probe unavailable "0123456789abcdef0123456789abcdef")
        (Semaphore.make MAX_CONCURRENT_DOWNLOADS)
    = Some (out, Semaphore.make MAX_CONCURRENT_DOWNLOADS,
            [EvAcquire; EvExtractInfo ydl_opts_info sample_url false; EvRelease])
    /\ (exc_type unavailable = DownloadError ->
        out = inl {| status := "error";
                     message := "Failed to download video: " ++ exc_str unavailable |}).
Proof.
  apply failed_probe_is_terminal; reflexivity.
Defined.

(** X8. The limit on the duration is strict and needs a reported
    duration: with a title that is a string, the download is left out
    exactly when the probe reports a duration above
    [MAX_VIDEO_DURATION_SECONDS], and made, once, exactly when it reports
    none or one of at most that many seconds. *)
Theorem duration_limit_is_strict
    (youtube_url download_path request_id t : string)
    (w : collaborator) (s : Semaphore.t) (info : info_dict) :
  Semaphore.locked s = false ->
  answer w ydl_opts_info youtube_url false = inl info ->
  get_title info (PyStr "video") = PyStr t ->
  exists out tr,
    run (download_video_task youtube_url download_path request_id) w s
    = Some (out, s, tr)
    /\ (count is_fetch tr = 0 <->
        exists n, duration info = Some n /\ (MAX_VIDEO_DURATION_SECONDS < n)%Z)
    /\ (count is_fetch tr = 1 <->
        duration info = None
        \/ exists n, duration info = Some n /\ (n <= MAX_VIDEO_DURATION_SECONDS)%Z).
Proof.
  intros L A T.
  pose proof (WorkerMore.run_paths youtube_url download_path request_id w s L) as R.
  cbv zeta in R. rewrite A in R.
  destruct (exceeds_limit (duration info)) eqn:D.
  - do 2 eexists. split; [exact R |].
    apply WorkerMore.exceeds_limit_iff in D as (n & Hn & Hgt).
    split; split.
    + intros _. eauto.
    + intros _. reflexivity.
    + intros H. discriminate H.
    + intros [E | (m & E & Hm)]; rewrite Hn in E; [discriminate E |].
      injection E as E. lia.
  - rewrite T in R. do 2 eexists. split; [exact R |].
    assert (N : ~ exists n, duration info = Some n
                            /\ (MAX_VIDEO_DURATION_SECONDS < n)%Z).
    { intros H. apply WorkerMore.exceeds_limit_iff in H. congruence. }
    split; split.
    + intros H. discriminate H.
    + intros H. contradiction.
    + intros _. destruct (duration info) as [n |]; [| auto].
      right. exists n. split; [reflexivity |].
      destruct (Z_le_gt_dec n MAX_VIDEO_DURATION_SECONDS) as [Hle | Hgt];
        [exact Hle |].
      elim N. exists n. split; [reflexivity | lia].
    + intros _. reflexivity.
Qed.

Lemma duration_limit_is_strict_witness :
  exists out tr,
    run (download_video_task sample_url DOWNLOAD_DIR "1a2b3c4d")
        (lib_with {| title := Some (PyStr "One hour sharp"); duration := Some 3600%Z |}
                  "0123456789abcdef0123456789abcdef")
        (Semaphore.make MAX_CONCURRENT_DOWNLOADS)
    = Some (out, Semaphore.make MAX_CONCURRENT_DOWNLOADS, tr)
    /\ count is_fetch tr = 1.
Proof.
  destruct (duration_limit_is_strict sample_url DOWNLOAD_DIR "1a2b3c4d"
              "One hour sharp"
              (lib_with {| title := Some (PyStr "One hour sharp");
                           duration := Some 3600%Z |}
                        "0123456789abcdef0123456789abcdef")
              (Semaphore.make MAX_CONCURRENT_DOWNLOADS)
              {| title := Some (PyStr "One hour sharp"); duration := Some 3600%Z |}
              eq_refl eq_refl eq_refl)
    as (out & tr & R & _ & H1).
  exists out, tr. split; [exact R |].
  apply H1. right. exists 3600%Z. split; [reflexivity | discriminate].
Defined.

(** X9. A probe that reports no title makes the worker name the file
    after the default ["video"]: the template is the download path joined
    with [video_], the hex digits of the draw and the extension
    placeholder. *)
Theorem missing_title_defaults_to_video
    (youtube_url download_path request_id : string)
    (w : collaborator) (s : Semaphore.t) (info : info_dict) :
  Semaphore.locked s = false ->
  answer w ydl_opts_info youtube_url false = inl info ->
  exceeds_limit (duration info) = false ->
  title info = None ->
  exists out tr,
    run (download_video_task youtube_url download_path request_id) w s
    = Some (out, s, tr)
    /\ templates tr
       = [path_join download_path ("video_" ++ hex (drawn w) ++ ".%(ext)s")].
Proof.
  intros L A D T.
  pose proof (WorkerMore.run_paths youtube_url download_path request_id w s L) as R.
  cbv zeta in R. rewrite A, D in R. unfold get_title in R. rewrite T in R.
  do 2 eexists. split; [exact R | reflexivity].
Qed.

Lemma missing_title_defaults_to_video_witness :
  exists out tr,
    run (download_video_task sample_url DOWNLOAD_DIR "1a2b3c4d")
        (lib_with bare_info "0123456789abcdef0123456789abcdef")
        (Semaphore.make MAX_CONCURRENT_DOWNLOADS)
    = Some (out, Semaphore.make MAX_CONCURRENT_DOWNLOADS, tr)
    /\ templates tr
       = [path_join DOWNLOAD_DIR
            ("video_" ++ hex (drawn (lib_with bare_info "0123456789abcdef0123456789abcdef"))
             ++ ".%(ext)s")].
Proof.
  apply (missing_title_defaults_to_video sample_url DOWNLOAD_DIR "1a2b3c4d"
           (lib_with bare_info "0123456789abcdef0123456789abcdef")
           (Semaphore.make MAX_CONCURRENT_DOWNLOADS) bare_info);
    reflexivity.
Defined.

(** X10. A probe that reports the title [None] (the key is there, the
    value is not a string) makes [re.sub] raise a [TypeError]: the worker
    returns the error outcome with the fixed message, after acquire, probe
    and release only; nothing is downloaded. *)
Theorem none_title_is_unexpected_error
    (youtube_url download_path request_id : string)
    (w : collaborator) (s : Semaphore.t) (info : info_dict) :
  Semaphore.locked s = false ->
  answer w ydl_opts_info youtube_url false = inl info ->
  exceeds_limit (duration info) = false ->
  title info = Some PyNone ->
  run (download_video_task youtube_url download_path request_id) w s
  = Some (inl {| status := "error";
                 message := "An unexpected error occurred during download. Please try again later." |},
          s,
          [EvAcquire; EvExtractInfo ydl_opts_info youtube_url false; EvRelease]).
Proof.
  intros L A D T.
  pose proof (WorkerMore.run_paths youtube_url download_path request_id w s L) as R.
  cbv zeta in R. rewrite A, D in R. unfold get_title in R. rewrite T in R.
  exact R.
Qed.

Lemma none_title_is_unexpected_error_witness :
  run (download_video_task sample_url DOWNLOAD_DIR "1a2b3c4d")
      (lib_with untitled_info "0123456789abcdef0123456789abcdef")
      (Semaphore.make MAX_CONCURRENT_DOWNLOADS)
  = Some (inl {| status := "error";
                 message := "An unexpected error occurred during download. Please try again later." |},
          Semaphore.make MAX_CONCURRENT_DOWNLOADS,
          [EvAcquire; EvExtractInfo ydl_opts_info sample_url false; EvRelease]).
Proof.
  apply (none_title_is_unexpected_error sample_url DOWNLOAD_DIR "1a2b3c4d"
           (lib_with untitled_info "0123456789abcdef0123456789abcdef")
           (Semaphore.make MAX_CONCURRENT_DOWNLOADS) untitled_info);
    reflexivity.
Defined.

(** X11. There is no retry: whatever the library answers, a run of the
    worker from a free gate calls the probe once and the download at most
    once, always for the URL of the request and never with the cache
    directory; the probe skips the download, and a download never expands a
    playlist and converts to mp4. *)
Theorem one_probe_at_most_one_download
    (youtube_url download_path request_id : string)
    (w : collaborator) (s : Semaphore.t) :
  Semaphore.locked s = false ->
  exists out tr,
    run (download_video_task youtube_url download_path request_id) w s
    = Some (out, s, tr)
    /\ count is_probe tr = 1
    /\ count is_fetch tr <= 1
    /\ forall o u d,
         In (EvExtractInfo o u d) tr ->
         u = youtube_url /\ cachedir o = false
         /\ (d = false -> skip_download o = true)
         /\ (d = true ->
             skip_download o = false /\ noplaylist o = true
             /\ preferedformat o = Some "mp4").
Proof.
  intros L.
  pose proof (WorkerMore.run_paths youtube_url download_path request_id w s L) as R.
  cbv zeta in R.
  assert (short : forall out,
             run (download_video_task youtube_url download_path request_id) w s
             = Some (out, s, short_run youtube_url) ->
             exists out tr,
               run (download_video_task youtube_url download_path request_id) w s
               = Some (out, s, tr)
               /\ count is_probe tr = 1 /\ count is_fetch tr <= 1
               /\ forall o u d,
                    In (EvExtractInfo o u d) tr ->
                    u = youtube_url /\ cachedir o = false
                    /\ (d = false -> skip_download o = true)
                    /\ (d = true ->
                        skip_download o = false /\ noplaylist o = true
                        /\ preferedformat o = Some "mp4")).
  { intros out H. exists out, (short_run youtube_url).
    split; [exact H |]. split; [reflexivity |]. split; [apply Nat.le_0_1 |].
    intros o u d [E | [E | [E | []]]]; try discriminate E.
    injection E as <- <- <-.
    repeat split; intros; solve [reflexivity | discriminate]. }
  destruct (answer w ydl_opts_info youtube_url false) as [info | e];
    [| exact (short _ R)].
  destruct (exceeds_limit (duration info)); [exact (short _ R) |].
  destruct (get_title info (PyStr "video")) as [| t]; [exact (short _ R) |].
  do 2 eexists. split; [exact R |].
  split; [reflexivity |]. split; [apply Nat.le_refl |].
  intros o u d [E | [E | [E | [E | [E | []]]]]]; try discriminate E;
    injection E as <- <- <-;
    repeat split; intros; solve [reflexivity | discriminate].
Qed.

Lemma one_probe_at_most_one_download_witness :
  exists out tr,
    run (download_video_task sample_url DOWNLOAD_DIR "1a2b3c4d")
        (lib_failing_fetch unavailable "0123456789abcdef0123456789abcdef")
        (Semaphore.make MAX_CONCURRENT_DOWNLOADS)
    = Some (out, Semaphore.make MAX_CONCURRENT_DOWNLOADS, tr)
    /\ count is_probe tr = 1
    /\ count is_fetch tr <= 1.
Proof.
  destruct (one_probe_at_most_one_download sample_url DOWNLOAD_DIR "1a2b3c4d"
              (lib_failing_fetch unavailable "0123456789abcdef0123456789abcdef")
              (Semaphore.make MAX_CONCURRENT_DOWNLOADS) eq_refl)
    as (out & tr & R & Hp & Hf & _).
  exists out, tr. auto.
Defined.

(** X12. The worker reports success only for a download that was made and
    did not raise: a run that returns an outcome with status "success"
    contains exactly one download call, the library answered that call with
    an [info_dict], and the message names the title of that answer. *)
Theorem success_means_downloaded
    (youtube_url download_path request_id : string)
    (w : collaborator) (s s' : Semaphore.t) (out : payload) (tr : list event) :
  run (download_video_task youtube_url download_path request_id) w s
  = Some (inl out, s', tr) ->
  status out = "success" ->
  count is_fetch tr = 1
  /\ exists o info',
       In (EvExtractInfo o youtube_url true) tr
       /\ answer w o youtube_url true = inl info'
       /\ message out
          = ("Successfully downloaded " ++ py_str (get_title info' PyNone))%string.
Proof.
  intros R Hs.
  destruct (Semaphore.locked s) eqn:L;
    [rewrite (WorkerMore.run_locked _ _ _ _ _ L) in R; discriminate R |].
  pose proof (WorkerMore.run_paths youtube_url download_path request_id w s L) as P.
  cbv zeta in P.
  assert (no : forall m : string,
             Some (inl {| status := "error"; message := m |}, s, short_run youtube_url)
             = Some (@inl payload exn out, s', tr) -> False).
  { intros m E. injection E as <- _ _. discriminate Hs. }
  destruct (answer w ydl_opts_info youtube_url false) as [info | e].
  - destruct (exceeds_limit (duration info));
      [rewrite P in R; elim (no _ R) |].
    destruct (get_title info (PyStr "video")) as [| t];
      [rewrite P in R; elim (no _ R) |].
    rewrite P in R.
    destruct (answer w (ydl_opts (template_of download_path t (drawn w)))
                     youtube_url true) as [info' | e] eqn:F.
    + injection R as <- _ <-. split; [reflexivity |].
      exists (ydl_opts (template_of download_path t (drawn w))), info'.
      split; [simpl; tauto |]. split; [exact F | reflexivity].
    + simpl in R. destruct (exc_type e); injection R as <- _ _ || discriminate R;
        discriminate Hs.
  - rewrite P in R. simpl in R.
    destruct (exc_type e); injection R as <- _ _ || discriminate R;
      discriminate Hs.
Qed.

Lemma success_means_downloaded_witness :
  count is_fetch
    (long_run sample_url
       (template_of DOWNLOAD_DIR "Me at the zoo: <part 1/2>"
                    "0123456789abcdef0123456789abcdef")) = 1
  /\ exists o info',
       In (EvExtractInfo o sample_url true)
          (long_run sample_url
             (template_of DOWNLOAD_DIR "Me at the zoo: <part 1/2>"
                          "0123456789abcdef0123456789abcdef"))
       /\ answer (lib_ok "0123456789abcdef0123456789abcdef") o sample_url true
          = inl info'
       /\ message {| status := "success";
                     message := "Successfully downloaded Me at the zoo: <part 1/2>" |}
          = ("Successfully downloaded " ++ py_str (get_title info' PyNone))%string.
Proof.
  apply (success_means_downloaded sample_url DOWNLOAD_DIR "1a2b3c4d"
           (lib_ok "0123456789abcdef0123456789abcdef")
           (Semaphore.make MAX_CONCURRENT_DOWNLOADS)
           (Semaphore.make MAX_CONCURRENT_DOWNLOADS));
    reflexivity.
Defined.

(** ** The queue of the gate *)
Module QueueFacts.
Import Semaphore.

Lemma wake_first_owners ws ws' :
  wake_first ws = Some ws' -> map owner ws' = map owner ws.
Proof.
  revert ws'. induction ws as [| q ws IH]; intros ws'; simpl; [discriminate |].
  destruct (done q).
  - destruct (wake_first ws) as [ws1 |]; simpl; [| discriminate].
    intros H. injection H as <-. simpl. f_equal. auto.
  - intros H. injection H as <-. reflexivity.
Qed.

Lemma wake_first_done ws ws' :
  wake_first ws = Some ws' -> existsb done ws' = true.
Proof.
  revert ws'. induction ws as [| q ws IH]; intros ws'; simpl; [discriminate |].
  destruct (done q) eqn:E.
  - destruct (wake_first ws) as [ws1 |]; simpl; [| discriminate].
    intros H. injection H as <-. simpl. rewrite E. reflexivity.
  - intros H. injection H as <-. reflexivity.
Qed.

Lemma wake_first_none ws : wake_first ws = None -> existsb pending ws = false.
Proof.
  induction ws as [| q ws IH]; simpl; [reflexivity |]. unfold pending at 1.
  destruct (done q); [| discriminate].
  destruct (wake_first ws); [discriminate |]. intros _. simpl. auto.
Qed.

Lemma owners_wake s : owners (_wake_up_next s) = owners s.
Proof.
  unfold owners, _wake_up_next.
  destruct (wake_first (_waiters s)) as [ws |] eqn:E; [| reflexivity].
  simpl. exact (wake_first_owners _ _ E).
Qed.

Lemma wake_passes_on s :
  existsb pending (_waiters (_wake_up_next s)) = true ->
  existsb done (_waiters (_wake_up_next s)) = true.
Proof.
  unfold _wake_up_next.
  destruct (wake_first (_waiters s)) as [ws |] eqn:E; simpl.
  - intros _. exact (wake_first_done _ _ E).
  - rewrite (wake_first_none _ E). discriminate.
Qed.

Lemma unlocked_no_waiters s : locked s = false -> _waiters s = [].
Proof.
  unfold locked. intros H. apply orb_false_iff in H as [_ H].
  destruct (_waiters s); [reflexivity | discriminate].
Qed.

Lemma all_done ws :
  existsb (fun _ => true) ws = true -> existsb pending ws = false ->
  existsb done ws = true.
Proof.
  destruct ws as [| q ws]; [discriminate |]. simpl. unfold pending at 1.
  intros _ H. apply orb_false_iff in H as [H _].
  apply negb_false_iff in H. rewrite H. reflexivity.
Qed.

Lemma owners_remove me ws :
  NoDup (map owner ws) ->
  NoDup (map owner (remove_waiter me ws))
  /\ forall j, In j (map owner (remove_waiter me ws))
               <-> In j (map owner ws) /\ j <> me.
Proof.
  induction ws as [| q ws IH]; simpl; intros N.
  - split; [constructor | tauto].
  - inversion N as [| ? ? Hq Hws]; subst.
    destruct (owner q =? me)%nat eqn:E.
    + apply Nat.eqb_eq in E. split; [exact Hws |].
      intros j. split.
      * intros H. split; [tauto |]. intros ->. subst me. contradiction.
      * intros [[H | H] Hj]; [congruence | exact H].
    + apply Nat.eqb_neq in E. destruct (IH Hws) as [N' I]. simpl. split.
      * constructor; [| exact N']. rewrite I. tauto.
      * intros j. rewrite I. split.
        -- intros [H | [H Hj]]; [split; [left; exact H | congruence] | tauto].
        -- intros [[H | H] Hj]; [left; exact H | right; tauto].
Qed.

(** The list of the coroutines, changed in one place. *)
Lemma nth_set_nth_same {A : Type} : forall (l : list A) i x y,
  nth_error l i = Some y -> nth_error (set_nth i x l) i = Some x.
Proof.
  induction l as [| z l IH]; intros i x y H; [destruct i; discriminate |].
  destruct i; simpl in *; [reflexivity | eauto].
Qed.

Lemma nth_set_nth_other {A : Type} : forall (l : list A) i j x,
  i <> j -> nth_error (set_nth i x l) j = nth_error l j.
Proof.
  induction l as [| z l IH]; intros i j x H; [destruct i; reflexivity |].
  destruct i, j; simpl; try reflexivity; [congruence | auto].
Qed.

Lemma set_nth_length {A : Type} : forall (l : list A) i x,
  List.length (set_nth i x l) = List.length l.
Proof.
  induction l as [| z l IH]; intros i x; [destruct i; reflexivity |].
  destruct i; simpl; auto.
Qed.

Lemma is_awaiting_set ws i w w' j :
  nth_error ws i = Some w ->
  is_awaiting (set_nth i w' ws) j
  <-> (j = i /\ awaiting w' = true) \/ (j <> i /\ is_awaiting ws j).
Proof.
  intros E. unfold is_awaiting. destruct (Nat.eq_dec j i) as [-> | N].
  - rewrite (nth_set_nth_same _ _ w' _ E). split.
    + intros (x & H & Hx). injection H as <-. auto.
    + intros [[_ H] | [H _]]; [eauto | congruence].
  - rewrite nth_set_nth_other by congruence. split; [auto |].
    intros [[H _] | [_ H]]; [congruence | exact H].
Qed.

(** What a step does to the queue and to the coroutine's suspension. *)
Lemma step_queue i w g w' g' :
  (awaiting w = true -> exists k, code w = Acquire k) ->
  step_worker i w g = Some (w', g') ->
  (awaiting w' = true -> exists k, code w' = Acquire k)
  /\ ((owners g' = owners g /\ awaiting w = false /\ awaiting w' = false)
      \/ (owners g' = owners g ++ [i] /\ awaiting w = false /\ awaiting w' = true)
      \/ (owners g' = map owner (remove_waiter i (_waiters g))
          /\ awaiting w = true /\ awaiting w' = false)).
Proof.
  unfold step_worker. intros Hc Hstep.
  assert (Hn : (forall k, code w <> Acquire k) -> awaiting w = false).
  { intros H. destruct (awaiting w); [| reflexivity].
    destruct (Hc eq_refl) as [k E]. elim (H k E). }
  destruct (code w) as [a | k | k | o u d k | k] eqn:C; [discriminate | | | |].
  - destruct (awaiting w) eqn:A.
    + destruct (fut_done i g); [| discriminate].
      injection Hstep as <- <-. simpl. split; [discriminate |].
      right; right. split; [| auto].
      unfold acquire_resume. cbv zeta. cbn [_value].
      destruct (0 <? _value g)%Z; [rewrite owners_wake |]; reflexivity.
    + destruct (acquire_enter i g) as [g1 | g1] eqn:E;
        injection Hstep as <- <-; simpl.
      * split; [discriminate |]. left.
        unfold acquire_enter in E. destruct (locked g); [discriminate |].
        injection E as <-. auto.
      * split; [eauto |]. right; left.
        unfold acquire_enter in E. destruct (locked g); [| discriminate].
        injection E as <-. unfold owners. simpl. rewrite map_app. auto.
  - injection Hstep as <- <-. simpl. split; [discriminate |]. left.
    unfold release. rewrite owners_wake.
    split; [reflexivity |]. split; [apply Hn; discriminate | reflexivity].
  - injection Hstep as <- <-. simpl.
    rewrite (Hn ltac:(discriminate)). split; [discriminate |]. auto.
  - injection Hstep as <- <-. simpl.
    rewrite (Hn ltac:(discriminate)). split; [discriminate |]. auto.
Qed.

(** A free permit is on its way to the first pending waiter. *)
Lemma step_passes_on i w g w' g' :
  ((0 < _value g)%Z -> existsb pending (_waiters g) = true ->
   existsb done (_waiters g) = true) ->
  step_worker i w g = Some (w', g') ->
  (0 < _value g')%Z -> existsb pending (_waiters g') = true ->
  existsb done (_waiters g') = true.
Proof.
  unfold step_worker. intros Hd Hstep.
  destruct (code w) as [a | k | k | o u d k | k]; [discriminate | | | |];
    try (injection Hstep as _ <-; exact Hd).
  - destruct (awaiting w).
    + destruct (fut_done i g); [| discriminate].
      injection Hstep as _ <-. unfold acquire_resume. cbv zeta. cbn [_value].
      destruct (0 <? _value g)%Z eqn:E.
      * intros _. apply wake_passes_on.
      * simpl. apply Z.ltb_ge in E. lia.
    + unfold acquire_enter in Hstep. destruct (locked g) eqn:L;
        injection Hstep as _ <-; simpl.
      * intros Hv _. rewrite existsb_app. apply orb_true_iff. left.
        unfold locked in L. apply orb_true_iff in L as [L | L];
          [apply Z.eqb_eq in L; lia |].
        destruct (existsb pending (_waiters g)) eqn:P; [auto |].
        apply all_done; assumption.
      * rewrite (unlocked_no_waiters g L). discriminate.
  - injection Hstep as _ <-. intros _. unfold release. apply wake_passes_on.
Qed.

Lemma spawn_not_awaiting l a : awaiting (spawn l a) = false.
Proof. destruct a as [[x y] z]. reflexivity. Qed.

Lemma boot_queue_ok K : queue_ok (boot K).
Proof.
  unfold queue_ok, boot, owners, is_awaiting. simpl.
  split; [constructor |]. split; [| split; [constructor | discriminate]].
  intros j. split; [tauto |]. intros (w & H & _). destruct j; discriminate.
Qed.

Lemma act_queue_ok a st st' :
  queue_ok st -> act a st = Some st' -> queue_ok st'.
Proof.
  intros (N & I & C & D) Hact. destruct a as [youtube_url request u l | i].
  - simpl in Hact. injection Hact as <-. unfold queue_ok. simpl.
    rewrite GateFacts.download_video_semaphore.
    split; [exact N |]. split; [| split; [| exact D]].
    + intros j. rewrite I. unfold is_awaiting. split.
      * intros (w & H & Hw). exists w. split; [| exact Hw].
        rewrite nth_error_app1; [exact H |].
        apply nth_error_Some. congruence.
      * intros (w & H & Hw).
        destruct (Nat.lt_ge_cases j (List.length (workers st))) as [Hlt | Hge].
        -- rewrite nth_error_app1 in H by exact Hlt. eauto.
        -- rewrite nth_error_app2 in H by exact Hge.
           apply nth_error_In, in_map_iff in H as (x & <- & _).
           rewrite spawn_not_awaiting in Hw. discriminate.
    + apply Forall_app. split; [exact C |].
      apply Forall_forall. intros w Hin. apply in_map_iff in Hin as (x & <- & _).
      rewrite spawn_not_awaiting. discriminate.
  - simpl in Hact.
    destruct (nth_error (workers st) i) as [w |] eqn:E; [| discriminate].
    destruct (step_worker i w (gate st)) as [[w' g'] |] eqn:S; [| discriminate].
    injection Hact as <-.
    pose proof (GateFacts.Forall_nth_error _ _ _ _ C E) as Cw.
    destruct (step_queue i w (gate st) w' g' Cw S) as [Cw' Hq].
    unfold queue_ok. simpl.
    assert (Hi : In i (owners (gate st)) <-> awaiting w = true).
    { rewrite I. unfold is_awaiting. rewrite E. split.
      - intros (x & H & Hx). injection H as <-. exact Hx.
      - eauto. }
    split; [| split; [| split]].
    + destruct Hq as [(-> & _) | [(-> & Hw & _) | (-> & _)]].
      * exact N.
      * apply NoDup_app; [exact N | repeat constructor; simpl; tauto |].
        intros j Hj [<- | []]. apply Hi in Hj. congruence.
      * apply owners_remove, N.
    + intros j. rewrite (is_awaiting_set _ _ _ w' j E).
      destruct Hq as [(-> & Hw & Hw') | [(-> & Hw & Hw') | (-> & Hw & Hw')]].
      * rewrite Hw'. split.
        -- intros H. right. split; [| apply I, H].
           intros ->. apply Hi in H. congruence.
        -- intros [[_ H] | [_ H]]; [discriminate | apply I, H].
      * rewrite in_app_iff. simpl. split.
        -- intros [H | [<- | []]]; [| auto].
           right. split; [| apply I, H]. intros ->. apply Hi in H. congruence.
        -- intros [[-> _] | [_ H]]; [auto | left; apply I, H].
      * rewrite (proj2 (owners_remove i _ N) j), Hw'. split.
        -- intros [H Hj]. right. split; [exact Hj | apply I, H].
        -- intros [[_ H] | [Hj H]]; [discriminate | split; [apply I, H | exact Hj]].
    + apply GateFacts.Forall_set_nth; assumption.
    + exact (step_passes_on i w (gate st) w' g' D S).
Qed.

Lemma reachable_queue_ok K st : reachable K st -> queue_ok st.
Proof.
  induction 1 as [| st a st' _ IH Hact].
  - apply boot_queue_ok.
  - exact (act_queue_ok a st st' IH Hact).
Qed.

End QueueFacts.

(** ** The application at rest and at work *)
Module LivenessFacts.
Import Semaphore.

Lemma critical_not_returned w : critical (code w) -> returned w = false.
Proof.
  unfold returned. intros H. destruct (code w); try reflexivity. inversion H.
Qed.

Lemma holder_runs w :
  worker_ok w -> holds w = true -> returned w = false /\ awaiting w = false.
Proof.
  unfold worker_ok. intros H E. rewrite E in H. destruct H as (Hc & Ha & _).
  split; [apply critical_not_returned, Hc | exact Ha].
Qed.

Lemma filter_none {A : Type} (f : A -> bool) (l : list A) :
  (forall x, In x l -> f x = false) -> filter f l = [].
Proof.
  induction l as [| x l IH]; simpl; intros H; [reflexivity |].
  rewrite (H x (or_introl eq_refl)). apply IH. intros y Hy. apply H. now right.
Qed.

Lemma find_owner ws q :
  NoDup (map owner ws) -> In q ws ->
  find (fun w => (owner w =? owner q)%nat) ws = Some q.
Proof.
  induction ws as [| q0 ws IH]; simpl; intros N H; [destruct H |].
  inversion N as [| ? ? Hq Hws]; subst.
  destruct (owner q0 =? owner q)%nat eqn:E.
  - destruct H as [-> | H]; [reflexivity |].
    apply Nat.eqb_eq in E. elim Hq. rewrite E. apply in_map, H.
  - destruct H as [-> | H]; [rewrite Nat.eqb_refl in E; discriminate | auto].
Qed.

(** A coroutine that is neither returned nor suspended can take a step. *)
Lemma runnable_steps i w g :
  returned w = false -> awaiting w = false ->
  exists w' g', step_worker i w g = Some (w', g').
Proof.
  unfold returned, step_worker. intros R A. rewrite A.
  destruct (code w); try discriminate R; try (do 2 eexists; reflexivity).
  destruct (acquire_enter i g); do 2 eexists; reflexivity.
Qed.

Lemma step_acts i st w w' g' :
  nth_error (workers st) i = Some w ->
  step_worker i w (gate st) = Some (w', g') ->
  exists st', act (Step i) st = Some st'.
Proof. intros E S. simpl. rewrite E, S. eauto. Qed.

End LivenessFacts.

(** X13. The probe counts against the limit as well: in every state the
    application reaches, at most [K] coroutines are inside a call of
    [extract_info], probe or download. *)
Theorem at_most_K_library_calls (K : Z) (st : system) :
  (0 <= K)%Z ->
  reachable K st ->
  (Z.of_nat (calling st) <= K)%Z.
Proof.
  intros HK Hr.
  destruct (GateFacts.reachable_invariant K st HK Hr) as (Hv & Hp & Hw).
  assert (calling st <= holders st).
  { apply GateFacts.count_le. revert Hw. apply Forall_impl.
    intros w Hok. unfold in_library, worker_ok in *.
    destruct (holds w); [reflexivity |].
    destruct Hok as [Hb _]. destruct (code w); try discriminate; inversion Hb. }
  unfold permits in Hp. lia.
Qed.

Lemma at_most_K_library_calls_witness :
  exists st,
    play rush (boot MAX_CONCURRENT_DOWNLOADS) = Some st
    /\ calling st = 3
    /\ (Z.of_nat (calling st) <= MAX_CONCURRENT_DOWNLOADS)%Z.
Proof.
  assert (E : exists st, play rush (boot MAX_CONCURRENT_DOWNLOADS) = Some st
                         /\ calling st = 3).
  { vm_compute. eexists. split; reflexivity. }
  destruct E as (st & E & H3).
  exists st. split; [exact E |]. split; [exact H3 |].
  apply (at_most_K_library_calls MAX_CONCURRENT_DOWNLOADS st).
  - discriminate.
  - exact (GateFacts.play_reachable _ rush _ _ (reach_boot _) E).
Defined.

(** X14. No slot is lost: once every coroutine has returned, the semaphore
    is as it was made, with all [K] permits and an empty queue, so that a
    valid URL is accepted with 202 again. *)
Theorem idle_server_is_free (K : Z) (st : system) :
  (0 <= K)%Z ->
  reachable K st ->
  forallb returned (workers st) = true ->
  gate st = Semaphore.make K
  /\ ((0 < K)%Z ->
      forall youtube_url request u,
        validate youtube_url = true ->
        code_of (reply (download_video youtube_url [] request u (gate st))) = 202).
Proof.
  intros HK Hr Hall.
  destruct (GateFacts.reachable_invariant K st HK Hr) as (Hv & Hp & Hw).
  destruct (QueueFacts.reachable_queue_ok K st Hr) as (N & I & C & D).
  rewrite forallb_forall in Hall. rewrite Forall_forall in Hw, C.
  assert (Q : Semaphore._waiters (gate st) = []).
  { destruct (Semaphore._waiters (gate st)) as [| q ws] eqn:E; [reflexivity |].
    assert (Hin : In (Semaphore.owner q) (owners (gate st)))
      by (unfold owners; rewrite E; simpl; auto).
    apply I in Hin as (w & Hn & Ha). apply nth_error_In in Hn.
    destruct (C w Hn Ha) as [k Hk]. specialize (Hall w Hn).
    unfold returned in Hall. rewrite Hk in Hall. discriminate. }
  assert (H0 : holders st = 0).
  { unfold holders. rewrite LivenessFacts.filter_none; [reflexivity |].
    intros w Hin. destruct (holds w) eqn:E; [| reflexivity].
    destruct (LivenessFacts.holder_runs w (Hw w Hin) E) as [R _].
    rewrite (Hall w Hin) in R. discriminate. }
  assert (G : gate st = Semaphore.make K).
  { unfold permits, Semaphore.woken in Hp. rewrite Q, H0 in Hp. simpl in Hp.
    destruct (gate st) as [v ws]. simpl in *. subst ws.
    unfold Semaphore.make. f_equal. lia. }
  split; [exact G |].
  intros HK' youtube_url request u V. rewrite G.
  unfold download_video, Semaphore.locked. rewrite V. simpl.
  destruct (K =? 0)%Z eqn:E; [apply Z.eqb_eq in E; lia | reflexivity].
Qed.

Lemma idle_server_is_free_witness :
  exists st,
    play (relay ++ [Step 1; Step 1; Step 2; Step 2;
                    Step 4; Step 4; Step 4; Step 4; Step 4])
         (boot MAX_CONCURRENT_DOWNLOADS) = Some st
    /\ List.length (workers st) = 5
    /\ gate st = Semaphore.make MAX_CONCURRENT_DOWNLOADS.
Proof.
  assert (E : exists st,
             play (relay ++ [Step 1; Step 1; Step 2; Step 2;
                             Step 4; Step 4; Step 4; Step 4; Step 4])
                  (boot MAX_CONCURRENT_DOWNLOADS) = Some st
             /\ List.length (workers st) = 5
             /\ forallb returned (workers st) = true).
  { vm_compute. eexists. split; [reflexivity |]. split; reflexivity. }
  destruct E as (st & E & H5 & Hall).
  exists st. split; [exact E |]. split; [exact H5 |].
  apply (idle_server_is_free MAX_CONCURRENT_DOWNLOADS st).
  - discriminate.
  - exact (GateFacts.play_reachable _ _ _ _ (reach_boot _) E).
  - exact Hall.
Defined.

(** With at least one permit, some coroutine can take a step of the
    model whenever some coroutine has not returned. *)
Lemma some_step_enabled (K : Z) (st : system) :
  (0 < K)%Z ->
  reachable K st ->
  forallb returned (workers st) = false ->
  exists i st', act (Step i) st = Some st'.
Proof.
  intros HK Hr Hsome.
  destruct (GateFacts.reachable_invariant K st (Z.lt_le_incl _ _ HK) Hr)
    as (Hv & Hp & Hw).
  destruct (QueueFacts.reachable_queue_ok K st Hr) as (N & I & C & D).
  rewrite Forall_forall in Hw, C.
  destruct (existsb (fun w => negb (returned w) && negb (awaiting w)) (workers st))
    eqn:Ex.
  - (* some coroutine is in the middle of its code *)
    apply existsb_exists in Ex as (w & Hin & Hw').
    apply andb_true_iff in Hw' as [R A].
    apply negb_true_iff in R, A.
    apply In_nth_error in Hin as [i Hi].
    destruct (LivenessFacts.runnable_steps i w (gate st) R A) as (w' & g' & S).
    exists i. exact (LivenessFacts.step_acts _ _ _ _ _ Hi S).
  - (* every coroutine has returned or waits *)
    assert (Idle : forall w, In w (workers st) ->
                             returned w = false -> awaiting w = true).
    { intros w Hin R. destruct (awaiting w) eqn:A; [reflexivity |].
      assert (X : existsb (fun w => negb (returned w) && negb (awaiting w))
                          (workers st) = true).
      { apply existsb_exists. exists w. rewrite R, A. auto. }
      congruence. }
    assert (H0 : holders st = 0).
    { unfold holders. rewrite LivenessFacts.filter_none; [reflexivity |].
      intros w Hin. destruct (holds w) eqn:E; [| reflexivity].
      destruct (LivenessFacts.holder_runs w (Hw w Hin) E) as [R A].
      rewrite (Idle w Hin R) in A. discriminate. }
    destruct (existsb Semaphore.done (Semaphore._waiters (gate st))) eqn:Dn.
    + (* a woken coroutine resumes *)
      apply existsb_exists in Dn as (q & Hq & Hd).
      assert (Hin : In (Semaphore.owner q) (owners (gate st)))
        by (apply in_map, Hq).
      apply I in Hin as (w & Hn & Ha).
      destruct (C w (nth_error_In _ _ Hn) Ha) as [k Hk].
      exists (Semaphore.owner q).
      apply (LivenessFacts.step_acts _ _ w
               {| code := k; awaiting := false; holds := true;
                  acquired := S (acquired w); released := released w;
                  lib := lib w |}
               (Semaphore.acquire_resume (Semaphore.owner q) (gate st)) Hn).
      unfold step_worker. rewrite Hk, Ha.
      unfold Semaphore.fut_done.
      rewrite (LivenessFacts.find_owner _ q N Hq), Hd. reflexivity.
    + (* nobody is woken: impossible, the permits are all free *)
      exfalso.
      assert (P : exists w, In w (workers st) /\ returned w = false).
      { destruct (forallb returned (workers st)) eqn:F; [discriminate |].
        clear - F. induction (workers st) as [| x l IH]; [discriminate |].
        simpl in F. destruct (returned x) eqn:R.
        - destruct (IH F) as (w & Hin & Hr).
          exists w. split; [right; exact Hin | exact Hr].
        - exists x. split; [left; reflexivity | exact R]. }
      destruct P as (w & Hin & R).
      pose proof (Idle w Hin R) as A.
      apply In_nth_error in Hin as [j Hj].
      assert (Hown : In j (owners (gate st))) by (apply I; exists w; auto).
      unfold permits, Semaphore.woken in Hp.
      rewrite LivenessFacts.filter_none in Hp.
      2:{ intros q Hq. destruct (Semaphore.done q) eqn:E; [| reflexivity].
          assert (X : existsb Semaphore.done (Semaphore._waiters (gate st)) = true)
            by (apply existsb_exists; eauto).
          congruence. }
      rewrite H0 in Hp. simpl in Hp.
      assert (Pd : existsb pending (Semaphore._waiters (gate st)) = true).
      { unfold owners in Hown. apply in_map_iff in Hown as (q & _ & Hq).
        apply existsb_exists. exists q. split; [exact Hq |].
        unfold pending. destruct (Semaphore.done q) eqn:E; [| reflexivity].
        assert (X : existsb Semaphore.done (Semaphore._waiters (gate st)) = true)
          by (apply existsb_exists; eauto).
        congruence. }
      assert (Hfree : (0 < Semaphore._value (gate st))%Z) by lia.
      specialize (D Hfree Pd). congruence.
Qed.

(** X15. The gate by itself never blocks the application: with at least
    one permit, in every state the application reaches in which some
    coroutine has not returned and no coroutine is inside a call of
    [extract_info], some coroutine can take its next step, and that step is
    not the return of a library call: it enters or resumes [acquire], draws
    the UUID or releases. So if the application ever stands still with
    work left, some coroutine is inside a call of the library; whether
    such a call returns is not said. *)
Theorem gate_alone_never_blocks (K : Z) (st : system) :
  (0 < K)%Z ->
  reachable K st ->
  forallb returned (workers st) = false ->
  calling st = 0 ->
  exists i w st',
    nth_error (workers st) i = Some w
    /\ in_library w = false
    /\ act (Step i) st = Some st'.
Proof.
  intros HK Hr Hsome Hcall.
  destruct (some_step_enabled K st HK Hr Hsome) as (i & st' & Hact).
  pose proof Hact as Hn. simpl in Hn.
  destruct (nth_error (workers st) i) as [w |] eqn:E; [| discriminate Hn].
  exists i, w, st'. split; [exact E |]. split; [| exact Hact].
  destruct (in_library w) eqn:L; [| reflexivity].
  unfold calling in Hcall. apply nth_error_In in E.
  assert (Hin : In w (filter in_library (workers st)))
    by (apply filter_In; auto).
  destruct (filter in_library (workers st)); [destruct Hin | discriminate Hcall].
Qed.

Lemma gate_alone_never_blocks_witness :
  exists st i w st',
    play two_posts (boot MAX_CONCURRENT_DOWNLOADS) = Some st
    /\ nth_error (workers st) i = Some w
    /\ in_library w = false
    /\ act (Step i) st = Some st'.
Proof.
  assert (E : exists st, play two_posts (boot MAX_CONCURRENT_DOWNLOADS) = Some st
                         /\ forallb returned (workers st) = false
                         /\ calling st = 0).
  { vm_compute. eexists. split; [reflexivity |]. split; reflexivity. }
  destruct E as (st & E & Hsome & Hcall).
  destruct (gate_alone_never_blocks MAX_CONCURRENT_DOWNLOADS st eq_refl
              (GateFacts.play_reachable _ two_posts _ _ (reach_boot _) E)
              Hsome Hcall)
    as (i & w & st' & Hn & Hl & Hact).
  exists st, i, w, st'. auto.
Defined.

(** ** The page *)
Module PageFacts.

Lemma on_submit_posts value p p' u :
  on_submit value p = (p', Some u) ->
  downloadInitiated p = false
  /\ u = trim value
  /\ u <> EmptyString
  /\ youtubeRegex_test u = true
  /\ p' = {| downloadInitiated := true; input_disabled := true;
             button_disabled := true;
             messageBox := Some ("Starting download... This may take a moment. Please do not close this page.", "info") |}.
Proof.
  unfold on_submit. destruct (downloadInitiated p); [discriminate |].
  destruct (String.length (trim value) =? 0)%nat eqn:E; [discriminate |].
  destruct (youtubeRegex_test (trim value)) eqn:T; [| discriminate].
  simpl. intros H. injection H as <- <-.
  repeat split; try reflexivity; try exact T.
  intros Z. rewrite Z in E. discriminate.
Qed.

Lemma on_submit_keeps value p p' :
  on_submit value p = (p', None) ->
  downloadInitiated p' = downloadInitiated p
  /\ input_disabled p' = input_disabled p
  /\ button_disabled p' = button_disabled p.
Proof.
  unfold on_submit. destruct (downloadInitiated p) eqn:D.
  - intros H. injection H as <-. simpl. auto.
  - destruct (String.length (trim value) =? 0)%nat;
      [intros H; injection H as <-; simpl; auto |].
    destruct (youtubeRegex_test (trim value)); simpl;
      [discriminate | intros H; injection H as <-; simpl; auto].
Qed.

Lemma page_step_ok e b b' : page_ok b -> page_step e b = Some b' -> page_ok b'.
Proof.
  unfold page_ok. intros (Hn & Hi & Hb) H. destruct e as [value | r]; simpl in H.
  - destruct (on_submit value (doc b)) as [p [u |]] eqn:E;
      injection H as <-; simpl.
    + apply on_submit_posts in E as (D & _ & _ & _ & ->). simpl.
      rewrite Hn, D. auto.
    + apply on_submit_keeps in E as (-> & -> & ->). auto.
  - destruct (in_flight b) as [| n] eqn:F; [discriminate |].
    injection H as <-. simpl.
    destruct (downloadInitiated (doc b)); [| discriminate].
    injection Hn as ->. auto.
Qed.

Lemma page_reachable_ok b : page_reachable b -> page_ok b.
Proof.
  induction 1 as [| b e b' _ IH H].
  - unfold page_ok. simpl. auto.
  - exact (page_step_ok e b b' IH H).
Qed.

Lemma page_play_reachable es : forall b b',
  page_reachable b -> page_play es b = Some b' -> page_reachable b'.
Proof.
  induction es as [| e es IH]; intros b b' Hr Hp; simpl in Hp.
  - injection Hp as <-. exact Hr.
  - destruct (page_step e b) as [b1 |] eqn:E; [| discriminate].
    exact (IH b1 b' (page_next b e b1 Hr E) Hp).
Qed.

End PageFacts.

(** X17. The page never has two requests in flight: however submits and
    ends of requests follow each other, at most one request is in flight,
    the flag [downloadInitiated] is set and the input and the button are
    disabled exactly while one is, and a submit in that time posts nothing
    and only says that a download is in progress. *)
Theorem page_one_request_at_a_time (b : browser) :
  page_reachable b ->
  in_flight b <= 1
  /\ (downloadInitiated (doc b) = true <-> in_flight b = 1)
  /\ input_disabled (doc b) = downloadInitiated (doc b)
  /\ button_disabled (doc b) = downloadInitiated (doc b)
  /\ (in_flight b = 1 ->
      forall value,
        page_step (Submit value) b
        = Some {| doc := showMessage "A download is already in progress. Please wait."
                                     "info" (doc b);
                  in_flight := 1 |}).
Proof.
  intros Hr. destruct (PageFacts.page_reachable_ok b Hr) as (Hn & Hi & Hb).
  destruct (downloadInitiated (doc b)) eqn:D.
  - repeat split; try assumption; try lia.
    intros _ value. simpl. unfold on_submit. rewrite D, Hn. reflexivity.
  - repeat split; try assumption; try lia; try discriminate.
Qed.

Lemma page_one_request_at_a_time_witness :
  exists b,
    page_play [Submit "  https://youtu.be/dQw4w9WgXcQ ";
               Submit "https://youtu.be/dQw4w9WgXcQ";
               Settle Rejected;
               Submit "https://www.youtube.com/watch?v=dQw4w9WgXcQ"]
              {| doc := fresh_page; in_flight := 0 |} = Some b
    /\ in_flight b = 1
    /\ in_flight b <= 1
    /\ (downloadInitiated (doc b) = true <-> in_flight b = 1).
Proof.
  assert (E : exists b,
             page_play [Submit "  https://youtu.be/dQw4w9WgXcQ ";
                        Submit "https://youtu.be/dQw4w9WgXcQ";
                        Settle Rejected;
                        Submit "https://www.youtube.com/watch?v=dQw4w9WgXcQ"]
                       {| doc := fresh_page; in_flight := 0 |} = Some b
             /\ in_flight b = 1).
  { vm_compute. eexists. split; reflexivity. }
  destruct E as (b & E & H1).
  destruct (page_one_request_at_a_time b
              (PageFacts.page_play_reachable _ _ _ page_fresh E))
    as (Hle & Hiff & _).
  exists b. auto.
Defined.

(** X18. What the page posts has passed its checks: a value is posted only
    when no download is in progress, it is the trimmed value of the input,
    it starts with one of the twelve host prefixes followed by at least one
    more character, and it contains neither a line feed nor a carriage
    return. *)
Theorem page_posts_checked_urls (value : string) (p p' : page) (u : string) :
  on_submit value p = (p', Some u) ->
  downloadInitiated p = false
  /\ u = trim value
  /\ forallb js_dot (chars u) = true
  /\ exists h rest : string,
       In h host_prefixes /\ rest <> EmptyString /\ u = (h ++ rest)%string.
Proof.
  intros H. apply PageFacts.on_submit_posts in H as (D & Hu & _ & T & _).
  split; [exact D |]. split; [exact Hu |].
  unfold youtubeRegex_test, youtubeRegex in T.
  apply ReFacts.accepts_lang, ReFacts.lang_seq_inv in T
    as (h & r & E & Hh & Hr).
  apply ReFacts.lang_plus_class in Hr as [Hn Hr].
  split.
  - rewrite E, forallb_app, Hr, andb_true_r.
    apply ValidatorFacts.host_words in Hh as (a & b & c & -> & Ha & Hb & Hc).
    destruct Ha as [-> | [-> | ->]], Hb as [-> | ->], Hc as [-> | ->];
      reflexivity.
  - exists (unchars h), (unchars r).
    rewrite <- ValidatorMore.host_prefix_lang, ValidatorMore.chars_unchars.
    split; [exact Hh |]. split.
    + intros Z. apply Hn. apply (f_equal chars) in Z.
      rewrite ValidatorMore.chars_unchars in Z. exact Z.
    + rewrite <- ValidatorMore.unchars_app, <- E.
      symmetry. apply ValidatorMore.unchars_chars.
Qed.

Lemma page_posts_checked_urls_witness :
  downloadInitiated fresh_page = false
  /\ "https://youtu.be/dQw4w9WgXcQ" = trim "  https://youtu.be/dQw4w9WgXcQ  "
  /\ forallb js_dot (chars "https://youtu.be/dQw4w9WgXcQ") = true
  /\ exists h rest : string,
       In h host_prefixes /\ rest <> EmptyString
       /\ "https://youtu.be/dQw4w9WgXcQ" = (h ++ rest)%string.
Proof.
  apply (page_posts_checked_urls "  https://youtu.be/dQw4w9WgXcQ  " fresh_page
           {| downloadInitiated := true; input_disabled := true;
              button_disabled := true;
              messageBox := Some ("Starting download... This may take a moment. Please do not close this page.", "info") |}).
  reflexivity.
Defined.

(** X19. The messages of the handler's two refusals do not reach the
    user: FastAPI sends the detail of an [HTTPException] under the key
    [detail], the script reads [data.message], and so for an invalid URL
    and for a busy server alike the page shows "Error: Something went
    wrong."; only the message of the 202 is shown as it was sent. *)
Theorem page_hides_refusal_messages
    (youtube_url : string) (tasks : list task_args) (request : Request)
    (u : uuid) (sem : Semaphore.t) (p : page) :
  messageBox
    (on_settled (as_fetched (reply (download_video youtube_url tasks request u sem))) p)
  = Some (if validate youtube_url && negb (Semaphore.locked sem)
          then (("Download initiated for " ++ youtube_url
                 ++ ". This process runs in the background.")%string, "success")
          else ("Error: Something went wrong.", "error")).
Proof.
  unfold download_video.
  destruct (validate youtube_url); [| reflexivity].
  destruct (Semaphore.locked sem); reflexivity.
Qed.
